(** * mf_triage: a Volatility 3 wrapper for quick memory-forensics triage

    A shallow embedding of [mf_triage.py] and the properties of its
    behaviour.

    The script is effectful glue: it probes for an executable, creates a
    case directory, runs the tool once per plugin with its output captured
    in a file, and writes an index.  The embedding therefore threads an
    explicit world through every call:

    - the file system is a finite map from paths to nodes (a directory or a
      regular file with its contents);
    - child processes are answered by an environment, a function of the
      number of processes spawned so far and of the argument vector, so
      that the same command may behave differently from one call to the
      next;
    - every call returns, with its result, the list of the effects it had,
      which makes "before" and "after" statable;
    - a Python call either returns, raises an exception, or leaves through
      [sys.exit].

    Text is a sequence of bytes ([string]); a Python [str] is represented by
    its UTF-8 encoding, which is what reaches the files and the streams.
    [pathlib] is modelled in its POSIX flavour.  Two paths are the same
    file when they are equal after [pathlib]'s own normalisation; links and
    permissions are outside the model, and a child process changes the file
    system only through the file its output is redirected to. *)

From Stdlib Require Import ZArith Ascii.
From stdpp Require Import gmap strings list.

Local Open Scope Z_scope.

(** ** Text *)

Module Text.

Definition NL : string := String "010"%char EmptyString.

(** [sep.join(xs)] *)
Fixpoint join (sep : string) (xs : list string) : string :=
  match xs with
  | [] => ""
  | [x] => x
  | x :: rest => x +:+ sep +:+ join sep rest
  end.

(** [s.replace(old, new)] for one-character [old] and [new], the only way
    the script calls it. *)
Fixpoint replace (old new : ascii) (s : string) : string :=
  match s with
  | EmptyString => EmptyString
  | String c rest =>
      String (if Ascii.eqb c old then new else c) (replace old new rest)
  end.

(** [s.split(sep)] for a one-character separator: the pieces between the
    separators, empty pieces included; never the empty list. *)
Fixpoint split (sep : ascii) (s : string) : list string :=
  match s with
  | EmptyString => [EmptyString]
  | String c rest =>
      if Ascii.eqb c sep then EmptyString :: split sep rest
      else match split sep rest with
           | [] => [String c EmptyString]
           | piece :: pieces => String c piece :: pieces
           end
  end.

(** [s.lstrip(c)] for a single character, with the number of characters
    removed. *)
Fixpoint lstrip_count (c : ascii) (s : string) : nat * string :=
  match s with
  | String d rest =>
      if Ascii.eqb d c
      then let '(n, r) := lstrip_count c rest in (S n, r)
      else (0%nat, s)
  | EmptyString => (0%nat, s)
  end.

Fixpoint contains_char (c : ascii) (s : string) : bool :=
  match s with
  | EmptyString => false
  | String d rest => Ascii.eqb d c || contains_char c rest
  end.

Fixpoint all_chars (f : ascii -> bool) (s : string) : bool :=
  match s with
  | EmptyString => true
  | String d rest => f d && all_chars f rest
  end.

Definition is_empty (s : string) : bool :=
  match s with EmptyString => true | _ => false end.

Fixpoint rev_onto (s acc : string) : string :=
  match s with
  | EmptyString => acc
  | String c rest => rev_onto rest (String c acc)
  end.

Definition rev (s : string) : string := rev_onto s EmptyString.

(** Python's [str.isspace] on the ASCII range: tab, newline, vertical tab,
    form feed, carriage return, the four separators 28 to 31, and space. *)
Definition is_space (c : ascii) : bool :=
  let n := nat_of_ascii c in
  ((9 <=? n) && (n <=? 13) || (28 <=? n) && (n <=? 32))%nat.

Fixpoint lstrip (s : string) : string :=
  match s with
  | String c rest => if is_space c then lstrip rest else s
  | EmptyString => s
  end.

(** [s.strip()] *)
Definition strip (s : string) : string := rev (lstrip (rev (lstrip s))).

Definition is_blank (c : ascii) : bool :=
  Ascii.eqb c " "%char || Ascii.eqb c "009"%char.

(** the leading run of spaces and tabs of a line *)
Fixpoint indent_of (s : string) : string :=
  match s with
  | String c rest => if is_blank c then String c (indent_of rest) else EmptyString
  | EmptyString => EmptyString
  end.

Fixpoint common_prefix (a b : string) : string :=
  match a, b with
  | String x a', String y b' =>
      if Ascii.eqb x y then String x (common_prefix a' b') else EmptyString
  | _, _ => EmptyString
  end.

(** [s] without its prefix [p], when it starts with it *)
Fixpoint remove_prefix (p s : string) : option string :=
  match p, s with
  | EmptyString, _ => Some s
  | String x p', String y s' => if Ascii.eqb x y then remove_prefix p' s' else None
  | String _ _, EmptyString => None
  end.

(** [textwrap.dedent]: lines of blanks only become empty, the margin is
    the longest run of blanks that starts every other line, and it is
    removed from each of them. *)
Definition dedent (text : string) : string :=
  let lines := map (fun l => if all_chars is_blank l then EmptyString else l)
                   (split "010"%char text) in
  let indents := map indent_of (filter (fun l => l <> EmptyString) lines) in
  let margin := match indents with
                | [] => EmptyString
                | i :: rest => foldl common_prefix i rest
                end in
  join NL (map (fun l => default l (remove_prefix margin l)) lines).

End Text.

(** ** Paths: [pathlib.PurePosixPath] *)

(** A path is its root ("" for a relative path, "/" or "//") and its
    components; [pathlib] keeps no empty component and no ".". *)
Record Path := { root : string; parts : list string }.

#[global] Instance Path_eq_dec : EqDecision Path.
Proof. solve_decision. Defined.

#[global] Instance Path_countable : Countable Path.
Proof.
  refine (inj_countable' (fun p => (root p, parts p))
                         (fun t => {| root := t.1; parts := t.2 |}) _).
  intros []; reflexivity.
Defined.

Module Pathlib.

(** the flavour's [splitroot]: exactly two leading slashes are kept,
    any other number of them is one *)
Definition splitroot (s : string) : string * string :=
  let '(n, rel) := Text.lstrip_count "/"%char s in
  match n with
  | O => (EmptyString, s)
  | 2%nat => ("//", rel)
  | _ => ("/", rel)
  end.

Definition keep_part (x : string) : bool :=
  negb (Text.is_empty x) && negb (String.eqb x ".").

(** [Path(s)] *)
Definition of_string (s : string) : Path :=
  let '(r, rel) := splitroot s in
  {| root := r; parts := filter (fun x => Is_true (keep_part x)) (Text.split "/"%char rel) |}.

(** [p / s]: an anchored right operand replaces the left one *)
Definition joinpath (p : Path) (s : string) : Path :=
  let q := of_string s in
  if Text.is_empty (root q)
  then {| root := root p; parts := parts p ++ parts q |}
  else q.

(** [str(p)] *)
Definition to_string (p : Path) : string :=
  match root p, parts p with
  | EmptyString, [] => "."
  | r, ps => r +:+ Text.join "/" ps
  end.

(** [p.parent]; a path without components is its own parent *)
Definition parent (p : Path) : Path :=
  {| root := root p; parts := removelast (parts p) |}.

End Pathlib.

(** ** The world *)

(** The exception classes the operating system interface raises here; only
    [FileNotFoundError] is ever caught by the script. *)
Inductive exn :=
| FileNotFoundError
| PermissionError
| FileExistsError
| IsADirectoryError
| NotADirectoryError
| OtherError (name : string).

#[global] Instance exn_eq_dec : EqDecision exn.
Proof. solve_decision. Defined.

Inductive node :=
| Dir
| File (content : string).

#[global] Instance node_eq_dec : EqDecision node.
Proof. solve_decision. Defined.

Inductive stream := Stdout | Stderr.

#[global] Instance stream_eq_dec : EqDecision stream.
Proof. solve_decision. Defined.

(** What a child process does: it cannot be started, or it runs to its end,
    leaving a return code and the chunks it wrote, each on one of its two
    output streams, in the order it wrote them. *)
Inductive spawn_result :=
| Failed (e : exn)
| Started (returncode : Z) (output : list (stream * string)).

(** Where a child's output stream goes: [subprocess.PIPE], or an open file. *)
Inductive redirect :=
| ToPipe
| ToFile (p : Path).

#[global] Instance redirect_eq_dec : EqDecision redirect.
Proof. solve_decision. Defined.

Inductive event :=
| EvSpawn (argv : list string) (out err : redirect) (r : spawn_result)
| EvMkdir (p : Path)
| EvOpenW (p : Path)
| EvWriteText (p : Path) (data : string)
| EvPrint (s : stream) (line : string).

Record env := {
  (** the fate of the [n]-th child process, given its argument vector *)
  env_spawn : nat -> list string -> spawn_result;
  (** [time.strftime(fmt)] at the moment the script asks *)
  env_strftime : string -> string
}.

Record world := {
  fs : gmap Path node;
  (** the number of child processes spawned so far *)
  clock : nat
}.

Inductive outcome (A : Type) :=
| Ok (a : A)
| Raise (e : exn)
| SysExit (code : Z).

Arguments Ok {A} a.
Arguments Raise {A} e.
Arguments SysExit {A} code.

(** A run of a piece of the script: how it ended, the world it left, and
    the effects it had, oldest first. *)
Record run (A : Type) := Run {
  outcome_of : outcome A;
  world_of : world;
  events_of : list event
}.

Arguments Run {A} _ _ _.
Arguments outcome_of {A} _.
Arguments world_of {A} _.
Arguments events_of {A} _.

Definition M (A : Type) : Type := world -> run A.

Definition ret {A} (a : A) : M A := fun w => Run (Ok a) w [].

Definition bind {A B} (m : M A) (k : A -> M B) : M B :=
  fun w =>
    let r := m w in
    match outcome_of r with
    | Ok a =>
        let r' := k a (world_of r) in
        Run (outcome_of r') (world_of r') (events_of r ++ events_of r')
    | Raise e => Run (Raise e) (world_of r) (events_of r)
    | SysExit c => Run (SysExit c) (world_of r) (events_of r)
    end.

Definition raise {A} (e : exn) : M A := fun w => Run (Raise e) w [].

Definition sys_exit {A} (code : Z) : M A := fun w => Run (SysExit code) w [].

(** [try: m  except FileNotFoundError: h] *)
Definition try_except_FileNotFoundError {A} (m : M A) (h : M A) : M A :=
  fun w =>
    let r := m w in
    match outcome_of r with
    | Raise FileNotFoundError =>
        let r' := h (world_of r) in
        Run (outcome_of r') (world_of r') (events_of r ++ events_of r')
    | _ => r
    end.

(** [try: m  except OSError as e: h e], every exception of the model being
    an [OSError] *)
Definition try_except_OSError {A} (m : M A) (h : exn -> M A) : M A :=
  fun w =>
    let r := m w in
    match outcome_of r with
    | Raise e =>
        let r' := h e (world_of r) in
        Run (outcome_of r') (world_of r') (events_of r ++ events_of r')
    | _ => r
    end.

#[global] Instance M_ret : MRet M := @ret.
#[global] Instance M_bind : MBind M := fun A B k m => bind m k.

(** an effect on the file system, with the event that records it *)
Definition effect (e : event) (f : gmap Path node) : M unit :=
  fun w => Run (Ok tt) {| fs := f; clock := clock w |} [e].

Definition get_fs : M (gmap Path node) := fun w => Run (Ok (fs w)) w [].

(** ** The file system *)

(** The root directory and the working directory are always there. *)
Definition fs_get (f : gmap Path node) (p : Path) : option node :=
  match parts p with
  | [] => Some Dir
  | _ => f !! p
  end.

Definition is_dir (f : gmap Path node) (p : Path) : bool :=
  match fs_get f p with
  | Some Dir => true
  | _ => false
  end.

(** [os.mkdir(p)] *)
Definition os_mkdir (p : Path) : M unit :=
  f ← get_fs;
  match fs_get f p with
  | Some _ => raise FileExistsError
  | None =>
      match fs_get f (Pathlib.parent p) with
      | Some Dir => effect (EvMkdir p) (<[p := Dir]> f)
      | Some (File _) => raise NotADirectoryError
      | None => raise FileNotFoundError
      end
  end.

(** What [Path.mkdir] does with an error of [os.mkdir] that is not handled
    as a missing parent: it is swallowed when [exist_ok] holds and the path
    is a directory, and raised again otherwise. *)
Definition mkdir_exists (p : Path) (exist_ok : bool) (e : exn) : M unit :=
  f ← get_fs;
  if negb exist_ok || negb (is_dir f p) then raise e else mret tt.

(** [p.mkdir(exist_ok=...)], without [parents]: a missing parent is raised
    as it is. *)
Definition mkdir_plain (p : Path) (exist_ok : bool) : M unit :=
  try_except_OSError (os_mkdir p)
    (fun e =>
       match e with
       | FileNotFoundError => raise FileNotFoundError
       | _ => mkdir_exists p exist_ok e
       end).

(** [p.mkdir(parents=True, exist_ok=...)] for the path whose components are
    [rev rparts]: on a missing parent, unless the path is its own parent,
    the parent is made with [parents=True, exist_ok=True] and the directory
    itself is tried again without [parents]. *)
Fixpoint mkdir_parents (r : string) (rparts : list string) (exist_ok : bool) : M unit :=
  let p := {| root := r; parts := rev rparts |} in
  try_except_OSError (os_mkdir p)
    (fun e =>
       match e with
       | FileNotFoundError =>
           match rparts with
           | [] => raise FileNotFoundError
           | _ :: up => mkdir_parents r up true ;; mkdir_plain p exist_ok
           end
       | _ => mkdir_exists p exist_ok e
       end).

(** [p.mkdir(parents=..., exist_ok=...)] *)
Definition mkdir (p : Path) (parents exist_ok : bool) : M unit :=
  if parents then mkdir_parents (root p) (rev (parts p)) exist_ok
  else mkdir_plain p exist_ok.

(** Opening [p] for writing, the file being created, or replaced when it
    exists, with contents [data]; [ev] records it. *)
Definition create_file (p : Path) (data : string) (ev : event) : M unit :=
  f ← get_fs;
  match fs_get f p with
  | Some Dir => raise IsADirectoryError
  | Some (File _) => effect ev (<[p := File data]> f)
  | None =>
      match fs_get f (Pathlib.parent p) with
      | Some Dir => effect ev (<[p := File data]> f)
      | Some (File _) => raise NotADirectoryError
      | None => raise FileNotFoundError
      end
  end.

(** [open(p, "w")]: the file is created, or emptied when it exists. *)
Definition open_w (p : Path) : M unit := create_file p "" (EvOpenW p).

(** [p.write_text(data)]: open for writing, write, close. *)
Definition write_text (p : Path) (data : string) : M unit :=
  create_file p data (EvWriteText p data).

(** Writing to an open file appends to it. *)
Definition append_file (p : Path) (data : string) (f : gmap Path node) : gmap Path node :=
  match f !! p with
  | Some (File old) => <[p := File (old +:+ data)]> f
  | _ => f
  end.

(** [print(line, file=s)] *)
Definition print (s : stream) (line : string) : M unit :=
  fun w => Run (Ok tt) w [EvPrint s line].

(** ** Child processes *)

(** the text a child wrote on one stream *)
Definition stream_text (s : stream) (output : list (stream * string)) : string :=
  Text.join "" (map snd (filter (fun c => c.1 = s) output)).

Definition destination (out err : redirect) (s : stream) : redirect :=
  match s with
  | Stdout => out
  | Stderr => err
  end.

(** what lands in a file: the chunks of the streams that are open on it, in
    the order the child wrote them *)
Definition written_to (p : Path) (out err : redirect) (output : list (stream * string)) : string :=
  Text.join "" (map snd (filter (fun c => destination out err c.1 = ToFile p) output)).

Definition redirect_targets (out err : redirect) : list Path :=
  match out, err with
  | ToFile p, ToFile q => if decide (p = q) then [p] else [p; q]
  | ToFile p, ToPipe => [p]
  | ToPipe, ToFile q => [q]
  | ToPipe, ToPipe => []
  end.

(** the effect of a finished child on the files its streams are open on *)
Definition deliver (out err : redirect) (output : list (stream * string))
    (f : gmap Path node) : gmap Path node :=
  foldl (fun g p => append_file p (written_to p out err output) g) f
        (redirect_targets out err).

(** The [CompletedProcess] of [subprocess.run]. *)
Record CompletedProcess := {
  cp_args : list string;
  returncode : Z;
  cp_stdout : option string;
  cp_stderr : option string
}.

Definition captured (r : redirect) (s : stream) (output : list (stream * string)) : option string :=
  match r with
  | ToPipe => Some (stream_text s output)
  | ToFile _ => None
  end.

(** [subprocess.run(argv, stdout=out, stderr=err, text=True)]: the child is
    started and awaited; [stderr=subprocess.STDOUT] is [err := out]. *)
Definition subprocess_run (E : env) (argv : list string) (out err : redirect)
    : M CompletedProcess :=
  fun w =>
    let r := env_spawn E (clock w) argv in
    match r with
    | Failed e =>
        Run (Raise e) {| fs := fs w; clock := S (clock w) |} [EvSpawn argv out err r]
    | Started rc output =>
        Run (Ok {| cp_args := argv; returncode := rc;
                   cp_stdout := captured out Stdout output;
                   cp_stderr := captured err Stderr output |})
            {| fs := deliver out err output (fs w); clock := S (clock w) |}
            [EvSpawn argv out err r]
    end.

(** ** The script *)

Definition DEFAULT_PLUGINS : list string :=
  [ "windows.pslist";
    "windows.pstree";
    "windows.netscan";
    "windows.dlllist";
    "windows.cmdline";
    "windows.malfind" ].

Definition CANDIDATE_CMDS : list string := ["vol"; "vol.py"; "volatility3"].

(** [r.returncode in (0,1)] *)
Definition acceptable (rc : Z) : bool := (rc =? 0) || (rc =? 1).

(** One turn of the loop of [find_vol]: [Some c] when the function returns
    [c] from inside the loop, [None] when the loop goes on, by falling
    through the [if] or by [continue]. *)
Definition probe (E : env) (c : string) : M (option string) :=
  try_except_FileNotFoundError
    (r ← subprocess_run E [c; "-h"] ToPipe ToPipe;
     mret (if acceptable (returncode r) then Some c else None))
    (mret None).

Fixpoint find_vol_in (E : env) (cs : list string) : M (option string) :=
  match cs with
  | [] => mret None
  | c :: rest =>
      found ← probe E c;
      match found with
      | Some v => mret (Some v)
      | None => find_vol_in E rest
      end
  end.

Definition find_vol (E : env) : M (option string) := find_vol_in E CANDIDATE_CMDS.

(** the truth value of an optional list, as in [if kargs:] *)
Definition truthy_list {A} (l : option (list A)) : bool :=
  match l with
  | Some (_ :: _) => true
  | _ => false
  end.

(** the truth value of an optional string, as in [if not vol:] *)
Definition truthy_str (s : option string) : bool :=
  match s with
  | Some v => negb (Text.is_empty v)
  | None => false
  end.

Definition run_plugin (E : env) (volcmd img plugin : string) (outpath : Path)
    (kargs : option (list string)) : M unit :=
  let args := [volcmd; "-f"; img; plugin] in
  let args := if truthy_list kargs then args ++ default [] kargs else args in
  open_w outpath ;;
  subprocess_run E args (ToFile outpath) (ToFile outpath) ;;
  mret tt.

(** The namespace [parse_args] returns. *)
Record Namespace := {
  file : string;
  outdir : string;
  plugins : list string
}.

(** The command line as [argparse] sees it: the two required options, and
    [--plugins] with its values when it is given. *)
Record CommandLine := {
  opt_file : string;
  opt_outdir : string;
  opt_plugins : option (list string)
}.

Definition parse_args (argv : CommandLine) : Namespace :=
  {| file := opt_file argv;
     outdir := opt_outdir argv;
     plugins := default DEFAULT_PLUGINS (opt_plugins argv) |}.

Definition not_found_message : string :=
  "[!] Could not find Volatility 3 (tried: vol, vol.py, volatility3). Add it to PATH.".

Definition hints_source : string :=
"
    ## Quick Review Hints
    - pslist / pstree: odd parent-child pairs, short-lived procs, unusual names.
    - netscan: unexpected outbound connections, high ports, shells with net.
    - dlllist: unsigned or unusual DLL paths in user-writable dirs.
    - cmdline: suspicious flags, base64 strings, LOLBins.
    - malfind: injected code regions (follow up only in a lab environment).
    ".

Definition hints : string := Text.strip (Text.dedent hints_source).

(** [plg.replace(".","_")] *)
Definition safe_name (plg : string) : string := Text.replace "."%char "_"%char plg.

(** [outdir/"raw"/f"{safe}.txt"] *)
Definition target_of (out : Path) (plg : string) : Path :=
  Pathlib.joinpath (Pathlib.joinpath out "raw") (safe_name plg +:+ ".txt").

Definition index_of (out : Path) : Path := Pathlib.joinpath out "INDEX.md".

Definition summary_line (target : Path) : string :=
  "- `" +:+ Pathlib.to_string target +:+ "`".

Definition summary_head (stamp img vol : string) (plgs : list string) : list string :=
  [ "# Memory Forensics Triage — " +:+ stamp;
    "- Image: `" +:+ img +:+ "`";
    "- Volatility: `" +:+ vol +:+ "`";
    "- Plugins: " +:+ Text.join ", " plgs;
    "";
    "## Outputs" ].

(** The [for plg in args.plugins] loop; the list [summary] it appends to is
    threaded through. *)
Fixpoint for_plugins (E : env) (vol img : string) (out : Path)
    (plgs : list string) (summary : list string) : M (list string) :=
  match plgs with
  | [] => mret summary
  | plg :: rest =>
      let target := target_of out plg in
      print Stdout ("[*] Running " +:+ plg +:+ " → " +:+ Pathlib.to_string target) ;;
      run_plugin E vol img plg target None ;;
      for_plugins E vol img out rest (summary ++ [summary_line target])
  end.

Definition index_text (summary : list string) : string :=
  Text.join Text.NL summary +:+ Text.NL +:+ Text.NL +:+ hints +:+ Text.NL.

(** The body of [main] from [outdir = pathlib.Path(args.outdir)] on, the
    tool being known. *)
Definition triage (E : env) (args : Namespace) (vol : string) : M unit :=
  let out := Pathlib.of_string (outdir args) in
  mkdir out true true ;;
  mkdir (Pathlib.joinpath out "raw") false true ;;
  let stamp := env_strftime E "%Y%m%d-%H%M%S" in
  let summary := summary_head stamp (file args) vol (plugins args) in
  summary ← for_plugins E vol (file args) out (plugins args) summary;
  write_text (index_of out) (index_text summary) ;;
  print Stdout ("[✓] Case saved to: " +:+ Pathlib.to_string out).

(** [main]; past the test [if not vol], [vol] is a text, which is what the
    f-strings and [run_plugin] are given ([None] would print as "None", but
    does not get there). *)
Definition main (E : env) (argv : CommandLine) : M unit :=
  let args := parse_args argv in
  vol ← find_vol E;
  if negb (truthy_str vol)
  then print Stderr not_found_message ;; sys_exit 2
  else triage E args (default "None" vol).

(** The exit status of the interpreter: 0 when [main] returns, the argument
    of [sys.exit], and 1 after an uncaught exception. *)
Definition exit_status {A} (o : outcome A) : Z :=
  match o with
  | Ok _ => 0
  | Raise _ => 1
  | SysExit code => code
  end.

Definition empty_world : world := {| fs := ∅; clock := 0 |}.

(** ** Vocabulary of the properties *)

(** The events of a run tell what happened to the file system: replaying
    them on the file system of the start gives the one of the end. *)
Definition apply_event (ev : event) (f : gmap Path node) : gmap Path node :=
  match ev with
  | EvSpawn _ out err (Started _ output) => deliver out err output f
  | EvSpawn _ _ _ (Failed _) => f
  | EvMkdir p => <[p := Dir]> f
  | EvOpenW p => <[p := File ""]> f
  | EvWriteText p data => <[p := File data]> f
  | EvPrint _ _ => f
  end.

Definition replay (evs : list event) (f : gmap Path node) : gmap Path node :=
  foldl (fun g ev => apply_event ev g) f evs.

(** the paths an event may change *)
Definition writes (ev : event) : list Path :=
  match ev with
  | EvSpawn _ out err _ => redirect_targets out err
  | EvMkdir p => [p]
  | EvOpenW p => [p]
  | EvWriteText p _ => [p]
  | EvPrint _ _ => []
  end.

Definition spares (p : Path) (ev : event) : Prop := p ∉ writes ev.

Definition sound {A} (m : M A) : Prop :=
  forall w, fs (world_of (m w)) = replay (events_of (m w)) (fs w).

(** The answers of the environment to the probes of the candidates [cs],
    the first of them being the [n]-th child process. *)
Fixpoint answers (E : env) (n : nat) (cs : list string) : list (string * spawn_result) :=
  match cs with
  | [] => []
  | c :: rest => (c, env_spawn E n [c; "-h"]) :: answers E (S n) rest
  end.

(** What the locator is to return, read off the answers: the first
    candidate that starts and exits with 0 or 1; a candidate that is not
    found, or exits with another code, is passed over; any other failure to
    start ends the search with that error. *)
Fixpoint locate (ans : list (string * spawn_result)) : outcome (option string) :=
  match ans with
  | [] => Ok None
  | (c, Started rc _) :: rest => if acceptable rc then Ok (Some c) else locate rest
  | (_, Failed FileNotFoundError) :: rest => locate rest
  | (_, Failed e) :: _ => Raise e
  end.

(** the number of candidates the locator gets to probe *)
Fixpoint tried (ans : list (string * spawn_result)) : nat :=
  match ans with
  | [] => 0
  | (_, Started rc _) :: rest => if acceptable rc then 1 else S (tried rest)
  | (_, Failed FileNotFoundError) :: rest => S (tried rest)
  | (_, Failed _) :: _ => 1
  end.

Definition probe_event (a : string * spawn_result) : event :=
  EvSpawn [a.1; "-h"] ToPipe ToPipe a.2.

(** a candidate that the locator passes over *)
Definition passed_over (r : spawn_result) : Prop :=
  match r with
  | Failed e => e = FileNotFoundError
  | Started rc _ => acceptable rc = false
  end.

(** The events of the loop over the plugins when every turn completes, the
    first child being the [n]-th. *)
Fixpoint loop_events (E : env) (vol img : string) (out : Path) (plgs : list string)
    (n : nat) : list event :=
  match plgs with
  | [] => []
  | plg :: rest =>
      let target := target_of out plg in
      let argv := [vol; "-f"; img; plg] in
      [ EvPrint Stdout ("[*] Running " +:+ plg +:+ " → " +:+ Pathlib.to_string target);
        EvOpenW target;
        EvSpawn argv (ToFile target) (ToFile target) (env_spawn E n argv) ]
      ++ loop_events E vol img out rest (S n)
  end.

(** the files opened for writing, in the order of the events *)
Definition opened (evs : list event) : list Path :=
  omap (fun ev => match ev with
                  | EvOpenW p => Some p
                  | EvWriteText p _ => Some p
                  | _ => None
                  end) evs.

(** the argument vectors of the children whose output went to a file *)
Definition captured_runs (evs : list event) : list (list string) :=
  omap (fun ev => match ev with
                  | EvSpawn argv (ToFile _) _ _ => Some argv
                  | _ => None
                  end) evs.

(** the lines printed on a stream *)
Definition printed (s : stream) (evs : list event) : list string :=
  omap (fun ev => match ev with
                  | EvPrint s' line => if decide (s' = s) then Some line else None
                  | _ => None
                  end) evs.

(** everything a child wrote, as it arrives when both streams are one file *)
Definition combined (output : list (stream * string)) : string :=
  Text.join "" (map snd output).

Definition emits {A} (P : event -> Prop) (m : M A) : Prop :=
  forall w, Forall P (events_of (m w)).

(** A candidate that is of no use in the widest sense: it does not start,
    whatever the reason, or it exits with a code that is not accepted. *)
Definition unusable (r : spawn_result) : Prop :=
  match r with
  | Failed _ => True
  | Started rc _ => acceptable rc = false
  end.

(** The first candidate that starts and exits with an accepted code, every
    candidate that does not start being passed over whatever the reason. *)
Fixpoint first_acceptable (ans : list (string * spawn_result)) : option string :=
  match ans with
  | [] => None
  | (c, Started rc _) :: rest => if acceptable rc then Some c else first_acceptable rest
  | (_, Failed _) :: rest => first_acceptable rest
  end.

(** a probe that fails to start only for want of the executable *)
Definition starts_or_missing (r : spawn_result) : Prop :=
  forall e, r = Failed e -> e = FileNotFoundError.

(** all the paths the events may have changed *)
Definition written (evs : list event) : list Path := evs ≫= writes.

(** ** Sample runs *)

(** [python3 mf_triage.py -f mem.raw -o cases/CASE001] *)
Definition sample_argv : CommandLine :=
  {| opt_file := "mem.raw"; opt_outdir := "cases/CASE001"; opt_plugins := None |}.

(** No candidate is on the search path. *)
Definition env_no_tool : env :=
  {| env_spawn := fun _ _ => Failed FileNotFoundError;
     env_strftime := fun _ => "20240101-120000" |}.

(** A file named [vol] is on the search path and may not be executed;
    [vol.py] is installed and prints its help. *)
Definition env_vol_denied : env :=
  {| env_spawn := fun _ argv =>
       match argv with
       | ["vol"; "-h"] => Failed PermissionError
       | ["vol.py"; "-h"] => Started 0 [(Stdout, "usage: vol.py")]
       | _ => Failed FileNotFoundError
       end;
     env_strftime := fun _ => "20240101-120000" |}.

(** Nothing is installed, and the only file named like a candidate may not
    be executed. *)
Definition env_only_denied : env :=
  {| env_spawn := fun _ argv =>
       match argv with
       | ["vol"; "-h"] => Failed PermissionError
       | _ => Failed FileNotFoundError
       end;
     env_strftime := fun _ => "20240101-120000" |}.

(** [vol.py] is installed; run on an image, it writes a table on its
    output and a warning on its error stream, and exits with the code
    [rc]. *)
Definition env_vol_py (rc : Z) : env :=
  {| env_spawn := fun _ argv =>
       match argv with
       | ["vol.py"; "-h"] => Started 0 [(Stdout, "usage: vol.py")]
       | "vol.py" :: "-f" :: _ =>
           Started rc [(Stdout, "PID PPID"); (Stderr, "WARNING"); (Stdout, "4 0")]
       | _ => Failed FileNotFoundError
       end;
     env_strftime := fun _ => "20240101-120000" |}.

(** A path that can be opened for writing: a regular file, or nothing yet
    in a directory that exists. *)
Definition writable (f : gmap Path node) (p : Path) : Prop :=
  match fs_get f p with
  | Some Dir => False
  | Some (File _) => True
  | None => fs_get f (Pathlib.parent p) = Some Dir
  end.

#[global] Instance writable_dec (f : gmap Path node) (p : Path) : Decision (writable f p).
Proof.
  unfold writable. destruct (fs_get f p) as [[|c]|]; [right; tauto | left; exact I |].
  apply _.
Defined.

(** the argument vector [run_plugin] builds *)
Definition plugin_argv (volcmd img plugin : string) (kargs : option (list string)) : list string :=
  [volcmd; "-f"; img; plugin] ++ default [] kargs.

(** ** The two halves of a run *)

(** what [main] does from the case directory to the end of the loop *)
Definition collect (E : env) (args : Namespace) (vol : string) : M (list string) :=
  let out := Pathlib.of_string (outdir args) in
  mkdir out true true ;;
  mkdir (Pathlib.joinpath out "raw") false true ;;
  for_plugins E vol (file args) out (plugins args)
    (summary_head (env_strftime E "%Y%m%d-%H%M%S") (file args) vol (plugins args)).

(** and what it does after the loop *)
Definition report (args : Namespace) (summary : list string) : M unit :=
  let out := Pathlib.of_string (outdir args) in
  write_text (index_of out) (index_text summary) ;;
  print Stdout ("[✓] Case saved to: " +:+ Pathlib.to_string out).

(** an event of the loop over the plugins [plgs] *)
Definition loop_event (out : Path) (plgs : list string) (ev : event) : Prop :=
  match ev with
  | EvPrint Stdout _ => True
  | EvOpenW p => exists plg, plg ∈ plgs /\ p = target_of out plg
  | EvSpawn _ o e _ => exists plg, plg ∈ plgs /\ o = ToFile (target_of out plg) /\ e = o
  | _ => False
  end.

(** an event of the making of a directory no deeper than [n] *)
Definition mkdir_event (r : string) (n : nat) (ev : event) : Prop :=
  match ev with
  | EvMkdir p => root p = r /\ (length (parts p) <= n)%nat
  | _ => False
  end.

Definition is_file (f : gmap Path node) (p : Path) : Prop :=
  exists content, f !! p = Some (File content).

Definition keeps_clock {A} (m : M A) : Prop :=
  forall w, clock (world_of (m w)) = clock w.

(** ** A file system on which a run can complete *)

(** Where the run needs a directory there is no regular file, and where it
    needs a regular file there is no directory; the plugin names hold no
    slash, so that every output file sits directly in the raw directory. *)
Record ready (f : gmap Path node) (out : Path) (plgs : list string) : Prop := {
  ready_dirs : forall k c,
    fs_get f {| root := root out; parts := take k (parts out) |} <> Some (File c);
  ready_raw : forall c, fs_get f (Pathlib.joinpath out "raw") <> Some (File c);
  ready_plain : Forall (fun plg => Text.contains_char "/" plg = false) plgs;
  ready_targets : Forall (fun plg => fs_get f (target_of out plg) <> Some Dir) plgs;
  ready_index : fs_get f (index_of out) <> Some Dir
}.

(** from the [n]-th child on, the tool [vol] starts whenever it is run on
    an image; what it writes and the code it returns are left open *)
Definition children_start (E : env) (n : nat) (vol : string) : Prop :=
  forall k rest, (n <= k)%nat ->
    exists rc output, env_spawn E k (vol :: "-f" :: rest) = Started rc output.

(** an event of the making of the case directory and of its raw directory *)
Definition setup_event (out : Path) (ev : event) : Prop :=
  match ev with
  | EvMkdir p =>
      (length (parts p) <= length (parts out))%nat \/ p = Pathlib.joinpath out "raw"
  | _ => False
  end.

(** an event that opens no file *)
Definition opens_nothing (ev : event) : Prop :=
  match ev with
  | EvOpenW _ | EvWriteText _ _ => False
  | _ => True
  end.

(** an event that makes no directory *)
Definition makes_no_dir (ev : event) : Prop :=
  match ev with
  | EvMkdir _ => False
  | _ => True
  end.

(** the lines of the summary, one per plugin *)
Definition summary_lines (out : Path) (plgs : list string) : list string :=
  (fun plg => "- `" +:+ Pathlib.to_string (target_of out plg) +:+ "`") <$> plgs.

Definition saved_message (out : Path) : string :=
  "[✓] Case saved to: " +:+ Pathlib.to_string out.

(** the index document of a run *)
Definition index_document (E : env) (args : Namespace) (vol : string) : string :=
  let out := Pathlib.of_string (outdir args) in
  index_text
    (summary_head (env_strftime E "%Y%m%d-%H%M%S") (file args) vol (plugins args)
     ++ summary_lines out (plugins args)).

(** A file name that is safe on a POSIX file system: one path component,
    that is, no slash and no NUL, and none of "", "." and "..". *)
Definition fs_safe (s : string) : bool :=
  negb (Text.contains_char "/" s) && negb (Text.contains_char "000" s)
  && negb (Text.is_empty s) && negb (String.eqb s ".") && negb (String.eqb s "..").

Definition is_alnum (c : ascii) : bool :=
  let n := nat_of_ascii c in
  ((48 <=? n) && (n <=? 57) || (65 <=? n) && (n <=? 90) || (97 <=? n) && (n <=? 122))%nat.

(** the regular files of a file system, in no particular order *)
Definition regular_files (f : gmap Path node) : list Path :=
  omap (fun kv => match kv.2 with File _ => Some kv.1 | Dir => None end) (map_to_list f).

(** [python3 mf_triage.py -f mem.raw -o cases/CASE001 --plugins ...] *)
Definition sample_argv_with (plgs : list string) : CommandLine :=
  {| opt_file := "mem.raw"; opt_outdir := "cases/CASE001"; opt_plugins := Some plgs |}.

(** the case directory of a command line *)
Definition case_dir (argv : CommandLine) : Path :=
  Pathlib.of_string (outdir (parse_args argv)).

(** the argument vectors of the children of the loop, one per plugin *)
Definition plugin_runs (vol : string) (args : Namespace) : list (list string) :=
  (fun plg => [vol; "-f"; file args; plg]) <$> plugins args.

(** ** Return codes set aside *)

Definition forget_rc (r : spawn_result) : spawn_result :=
  match r with
  | Started _ output => Started 0 output
  | Failed e => Failed e
  end.

Definition forget_event_rc (ev : event) : event :=
  match ev with
  | EvSpawn argv o e r => EvSpawn argv o e (forget_rc r)
  | _ => ev
  end.

(** The environment [E] with the return code of every child from the
    [n]-th on replaced as [f] says, and nothing else changed. *)
Definition recode (n : nat) (f : nat -> Z -> Z) (E : env) : env :=
  {| env_spawn := fun k argv =>
       if (k <? n)%nat then env_spawn E k argv
       else match env_spawn E k argv with
            | Started rc output => Started (f k rc) output
            | Failed e => Failed e
            end;
     env_strftime := env_strftime E |}.

(** two environments that differ at most in the return codes of the
    children from the [n]-th on *)
Definition agree_from (n : nat) (E E' : env) : Prop :=
  env_strftime E = env_strftime E' /\
  forall k argv, (n <= k)%nat ->
    forget_rc (env_spawn E k argv) = forget_rc (env_spawn E' k argv).

(** two runs that differ at most in the return codes their events record *)
Definition same_but_rc {A} (r r' : run A) : Prop :=
  outcome_of r = outcome_of r' /\
  world_of r = world_of r' /\
  forget_event_rc <$> events_of r = forget_event_rc <$> events_of r'.

(** ** Vocabulary of the further properties *)

(** a computation that never leaves through [sys.exit] *)
Definition never_exits {A} (m : M A) : Prop :=
  forall w c, outcome_of (m w) <> SysExit c.

(** Every event a run of [main] can have, for the case directory [out] and
    the plugins [plgs]: a probe with both streams piped, a child of a plugin
    with both streams on the output file of that plugin, the making of the
    case directory, of one of its ancestors or of its raw directory, the
    opening of the output file of a plugin, the writing of the index, a
    printed line. *)
Definition run_event (out : Path) (plgs : list string) (ev : event) : Prop :=
  match ev with
  | EvSpawn _ ToPipe ToPipe _ => True
  | EvSpawn _ o e _ => exists plg, plg ∈ plgs /\ o = ToFile (target_of out plg) /\ e = o
  | EvMkdir p =>
      p = Pathlib.joinpath out "raw" \/
      exists k, p = {| root := root out; parts := take k (parts out) |}
  | EvOpenW p => exists plg, plg ∈ plgs /\ p = target_of out plg
  | EvWriteText p _ => p = index_of out
  | EvPrint _ _ => True
  end.

(** the error of [open(p, "w")] on a path that cannot be opened *)
Definition open_error (f : gmap Path node) (p : Path) : exn :=
  match fs_get f p with
  | Some _ => IsADirectoryError
  | None =>
      match fs_get f (Pathlib.parent p) with
      | Some _ => NotADirectoryError
      | None => FileNotFoundError
      end
  end.

(** the tool starts on each of the plugins [plgs], run in this order from
    the [n]-th child on *)
Fixpoint each_starts (E : env) (n : nat) (vol img : string) (plgs : list string) : Prop :=
  match plgs with
  | [] => True
  | plg :: rest =>
      (exists rc output, env_spawn E n [vol; "-f"; img; plg] = Started rc output) /\
      each_starts E (S n) vol img rest
  end.

(** the line the loop prints before it runs a plugin *)
Definition running_line (out : Path) (plg : string) : string :=
  "[*] Running " +:+ plg +:+ " → " +:+ Pathlib.to_string (target_of out plg).

(** A case directory with an index from an earlier run. *)
Definition fs_with_old_index : gmap Path node :=
  {[ Pathlib.of_string "cases" := Dir;
     Pathlib.of_string "cases/CASE001" := Dir;
     Pathlib.of_string "cases/CASE001/INDEX.md" := File "old index" ]}.

(** The path given as the case directory is a regular file. *)
Definition fs_with_file_as_outdir : gmap Path node :=
  {[ Pathlib.of_string "cases" := Dir;
     Pathlib.of_string "cases/CASE001" := File "notes" ]}.

(** [vol.py] is installed, but can no more be started once it has run
    [good] plugins (the children 2 to [good] + 1, after the two probes). *)
Definition env_vol_py_vanishes (good : nat) : env :=
  {| env_spawn := fun k argv =>
       match argv with
       | ["vol.py"; "-h"] => Started 0 [(Stdout, "usage: vol.py")]
       | "vol.py" :: "-f" :: _ =>
           if (k <? 2 + good)%nat then Started 0 [(Stdout, "PID PPID")]
           else Failed FileNotFoundError
       | _ => Failed FileNotFoundError
       end;
     env_strftime := fun _ => "20240101-120000" |}.

(** A file system on which the loop over [plgs] can go: the raw directory
    is there, the names hold no slash, and no output file is a directory. *)
Definition loop_ready (out : Path) (f : gmap Path node) (plgs : list string) : Prop :=
  fs_get f (Pathlib.joinpath out "raw") = Some Dir /\
  Forall (fun plg => Text.contains_char "/" plg = false) plgs /\
  Forall (fun plg => fs_get f (target_of out plg) <> Some Dir) plgs.

(** * Properties *)

Example of_string_1 :
  Pathlib.of_string "cases/CASE001" = {| root := ""; parts := ["cases"; "CASE001"] |}.
Proof. reflexivity. Qed.

Example of_string_2 :
  Pathlib.of_string "//a/./b//c/" = {| root := "//"; parts := ["a"; "b"; "c"] |}.
Proof. reflexivity. Qed.

Example of_string_3 :
  Pathlib.to_string (Pathlib.joinpath (Pathlib.of_string "out/") "raw") = "out/raw".
Proof. reflexivity. Qed.

(** ** Text and paths *)

Section TextFacts.

#[local] Arguments String.append !_ _ / : simpl nomatch.

Lemma append_empty_r (s : string) : s +:+ "" = s.
Proof. induction s as [|c s IH]; simpl; [reflexivity | by rewrite IH]. Qed.

Lemma append_assoc (a b c : string) : (a +:+ b) +:+ c = a +:+ b +:+ c.
Proof. induction a as [|x a IH]; simpl; [reflexivity | by rewrite IH]. Qed.

Lemma length_append (a b : string) :
  String.length (a +:+ b) = (String.length a + String.length b)%nat.
Proof. induction a as [|x a IH]; simpl; [reflexivity | by rewrite IH]. Qed.

Lemma contains_char_append (c : ascii) (a b : string) :
  Text.contains_char c (a +:+ b) = Text.contains_char c a || Text.contains_char c b.
Proof.
  induction a as [|x a IH]; simpl; [reflexivity |].
  rewrite IH. by destruct (Ascii.eqb x c).
Qed.

Lemma split_nonempty (sep : ascii) (s : string) : Text.split sep s <> [].
Proof.
  induction s as [|c s IH]; simpl; [discriminate |].
  destruct (Ascii.eqb c sep); [discriminate |].
  destruct (Text.split sep s); [contradiction | discriminate].
Qed.

(** A text without the separator is a single piece. *)
Lemma split_plain (sep : ascii) (s : string) :
  Text.contains_char sep s = false -> Text.split sep s = [s].
Proof.
  induction s as [|c s IH]; simpl; [reflexivity |].
  destruct (Ascii.eqb c sep); simpl; [discriminate |].
  intros H. by rewrite (IH H).
Qed.

(** Appending a text without the separator extends the last piece. *)
Lemma split_append_plain (sep : ascii) (x y : string) :
  Text.contains_char sep y = false ->
  exists init l,
    Text.split sep x = init ++ [l] /\ Text.split sep (x +:+ y) = init ++ [l +:+ y].
Proof.
  intros Hy. induction x as [|c x (init & l & IH1 & IH2)]; simpl.
  - exists [], EmptyString. split; [reflexivity |]. simpl. by apply split_plain.
  - destruct (Ascii.eqb c sep).
    + exists (EmptyString :: init), l. by rewrite IH1, IH2.
    + rewrite IH1, IH2. destruct init as [|i init]; simpl.
      * exists [], (String c l). by split.
      * exists (String c i :: init), l. by split.
Qed.

Lemma lstrip_count_append (c d : ascii) (x y : string) :
  Ascii.eqb d c = false ->
  (Text.lstrip_count c (x +:+ String d y)).2 = (Text.lstrip_count c x).2 +:+ String d y.
Proof.
  intros Hd. induction x as [|e x IH]; simpl.
  - by rewrite Hd.
  - destruct (Ascii.eqb e c); simpl; [| reflexivity].
    destruct (Text.lstrip_count c (x +:+ String d y)) as [n r].
    destruct (Text.lstrip_count c x) as [n' r']. simpl in *. exact IH.
Qed.

Lemma replace_length (old new : ascii) (s : string) :
  String.length (Text.replace old new s) = String.length s.
Proof. induction s as [|c s IH]; simpl; [reflexivity | by rewrite IH]. Qed.

Lemma replace_get (old new : ascii) (s : string) (n : nat) :
  String.get n (Text.replace old new s) =
  (fun c => if Ascii.eqb c old then new else c) <$> String.get n s.
Proof.
  revert n. induction s as [|c s IH]; intros n; simpl; [reflexivity |].
  destruct n; [reflexivity | apply IH].
Qed.

Lemma replace_removes (old new : ascii) (s : string) :
  old <> new -> Text.contains_char old (Text.replace old new s) = false.
Proof.
  intros Hne. induction s as [|c s IH]; simpl; [reflexivity |].
  rewrite IH, orb_false_r.
  destruct (Ascii.eqb c old) eqn:Hc; [| exact Hc].
  apply Ascii.eqb_neq. congruence.
Qed.

Lemma replace_keeps (old new c : ascii) (s : string) :
  c <> old -> c <> new ->
  Text.contains_char c (Text.replace old new s) = Text.contains_char c s.
Proof.
  intros Ho Hn. induction s as [|d s IH]; simpl; [reflexivity |].
  rewrite IH. f_equal.
  destruct (Ascii.eqb d old) eqn:Hd; [| reflexivity].
  apply Ascii.eqb_eq in Hd. subst d.
  transitivity false; [by apply Ascii.eqb_neq | symmetry; by apply Ascii.eqb_neq].
Qed.

(** [replace] is one to one on texts that do not hold the new character. *)
Lemma replace_inj (old new : ascii) (s t : string) :
  Text.contains_char new s = false ->
  Text.contains_char new t = false ->
  Text.replace old new s = Text.replace old new t -> s = t.
Proof.
  revert t. induction s as [|c s IH]; intros [|d t]; simpl; try discriminate; [reflexivity |].
  intros Hs Ht Heq.
  apply orb_false_iff in Hs as [Hc Hs]. apply orb_false_iff in Ht as [Hd Ht].
  injection Heq as Hhd Htl. f_equal; [| by apply IH].
  apply Ascii.eqb_neq in Hc, Hd.
  destruct (Ascii.eqb c old) eqn:Eco, (Ascii.eqb d old) eqn:Edo;
    try apply Ascii.eqb_eq in Eco; try apply Ascii.eqb_eq in Edo; congruence.
Qed.

Lemma append_inj_l (a b s : string) : a +:+ s = b +:+ s -> a = b.
Proof.
  revert b. induction a as [|x a IH]; intros [|y b]; simpl; intros H.
  - reflexivity.
  - apply (f_equal String.length) in H. simpl in H. rewrite length_append in H. lia.
  - apply (f_equal String.length) in H. simpl in H. rewrite length_append in H. lia.
  - injection H as -> H. f_equal. by apply IH.
Qed.

End TextFacts.

Section PathFacts.

#[local] Arguments String.append !_ _ / : simpl nomatch.

Lemma joinpath_raw (out : Path) :
  Pathlib.joinpath out "raw" = {| root := root out; parts := parts out ++ ["raw"] |}.
Proof. reflexivity. Qed.

Lemma index_of_parts (out : Path) :
  index_of out = {| root := root out; parts := parts out ++ ["INDEX.md"] |}.
Proof. reflexivity. Qed.

Lemma lstrip_count_plain (c : ascii) (s : string) :
  Text.contains_char c s = false -> Text.lstrip_count c s = (0%nat, s).
Proof.
  destruct s as [|d s]; simpl; [reflexivity |].
  destruct (Ascii.eqb d c); [discriminate | reflexivity].
Qed.

(** A text without a slash, other than "" and ".", is a relative path of
    one component. *)
Lemma of_string_plain (s : string) :
  Text.contains_char "/" s = false -> s <> "" -> s <> "." ->
  Pathlib.of_string s = {| root := ""; parts := [s] |}.
Proof.
  intros Hs Hne Hdot. unfold Pathlib.of_string, Pathlib.splitroot.
  rewrite (lstrip_count_plain _ _ Hs), (split_plain _ _ Hs).
  f_equal. rewrite filter_cons_True, filter_nil; [reflexivity |].
  unfold Pathlib.keep_part. apply String.eqb_neq in Hdot. rewrite Hdot.
  destruct s; [contradiction | exact I].
Qed.

Lemma txt_name_facts (x : string) :
  Text.contains_char "/" x = false ->
  Text.contains_char "/" (x +:+ ".txt") = false /\ x +:+ ".txt" <> "" /\ x +:+ ".txt" <> ".".
Proof.
  intros Hx. rewrite contains_char_append, Hx. split; [reflexivity |].
  split; intros H; apply (f_equal String.length) in H;
    rewrite length_append in H; simpl in H; lia.
Qed.

Lemma safe_name_slash (plg : string) :
  Text.contains_char "/" (safe_name plg) = Text.contains_char "/" plg.
Proof. apply replace_keeps; discriminate. Qed.

(** The output file of a plugin whose name holds no slash sits directly in
    the raw directory. *)
Lemma target_of_plain (out : Path) (plg : string) :
  Text.contains_char "/" plg = false ->
  target_of out plg =
  {| root := root out; parts := parts out ++ ["raw"; safe_name plg +:+ ".txt"] |}.
Proof.
  intros Hp. unfold target_of. rewrite joinpath_raw.
  rewrite <- safe_name_slash in Hp.
  destruct (txt_name_facts _ Hp) as (H1 & H2 & H3).
  unfold Pathlib.joinpath. rewrite (of_string_plain _ H1 H2 H3). simpl.
  by rewrite <- app_assoc.
Qed.

Lemma keep_txt (z : string) : Pathlib.keep_part (z +:+ ".txt") = true.
Proof.
  unfold Pathlib.keep_part.
  assert (z +:+ ".txt" <> ".") as Hdot.
  { intros H. apply (f_equal String.length) in H.
    rewrite length_append in H. simpl in H. lia. }
  apply String.eqb_neq in Hdot. rewrite Hdot.
  destruct (z +:+ ".txt") eqn:E; [| reflexivity].
  apply (f_equal String.length) in E. rewrite length_append in E. simpl in E. lia.
Qed.

(** Whatever the text, the last component of the path of a text that ends
    in ".txt" ends in ".txt". *)
Lemma split_txt (y : string) :
  exists pre z,
    filter (fun c => Is_true (Pathlib.keep_part c)) (Text.split "/" (y +:+ ".txt"))
    = pre ++ [z +:+ ".txt"].
Proof.
  destruct (split_append_plain "/" y ".txt" eq_refl) as (init & l & _ & Hsplit).
  exists (filter (fun c => Is_true (Pathlib.keep_part c)) init), l.
  rewrite Hsplit, filter_app, filter_cons_True, filter_nil; [reflexivity |].
  rewrite keep_txt. exact I.
Qed.

Lemma of_string_txt (x : string) :
  exists pre z, parts (Pathlib.of_string (x +:+ ".txt")) = pre ++ [z +:+ ".txt"].
Proof.
  unfold Pathlib.of_string, Pathlib.splitroot.
  pose proof (lstrip_count_append "/" "." x "txt" eq_refl) as Hrel.
  destruct (Text.lstrip_count "/" (x +:+ ".txt")) as [n rel]. simpl in Hrel.
  destruct n as [|[|[|n]]]; simpl; rewrite ?Hrel; apply split_txt.
Qed.

Lemma target_of_txt (out : Path) (plg : string) :
  exists pre z, parts (target_of out plg) = pre ++ [z +:+ ".txt"].
Proof.
  unfold target_of, Pathlib.joinpath at 1.
  destruct (of_string_txt (safe_name plg)) as (pre & z & Hq).
  destruct (Text.is_empty _); simpl.
  - exists (parts (Pathlib.joinpath out "raw") ++ pre), z. by rewrite Hq, app_assoc.
  - by exists pre, z.
Qed.

Lemma txt_not_index (z : string) : z +:+ ".txt" <> "INDEX.md".
Proof.
  intros H.
  assert (String.length z = 4%nat) as Hlen.
  { apply (f_equal String.length) in H. rewrite length_append in H. simpl in H. lia. }
  destruct z as [|a [|b [|c [|d [|e z]]]]]; try discriminate Hlen.
  discriminate H.
Qed.

(** No output file is the index. *)
Lemma target_not_index (out : Path) (plg : string) : target_of out plg <> index_of out.
Proof.
  intros H. apply (f_equal parts) in H. rewrite index_of_parts in H. simpl in H.
  destruct (target_of_txt out plg) as (pre & z & Hz). rewrite Hz in H.
  apply app_inj_tail in H as [_ H]. by apply txt_not_index in H.
Qed.

End PathFacts.

(** ** Runs *)

Section RunFacts.

Context {A B : Type}.

Lemma bind_Ok (m : M A) (k : A -> M B) (w : world) (a : A) :
  outcome_of (m w) = Ok a ->
  (m ≫= k) w =
  Run (outcome_of (k a (world_of (m w)))) (world_of (k a (world_of (m w))))
      (events_of (m w) ++ events_of (k a (world_of (m w)))).
Proof. intros H. unfold mbind, M_bind, bind. by rewrite H. Qed.

Lemma bind_Raise (m : M A) (k : A -> M B) (w : world) (e : exn) :
  outcome_of (m w) = Raise e ->
  (m ≫= k) w = Run (Raise e) (world_of (m w)) (events_of (m w)).
Proof. intros H. unfold mbind, M_bind, bind. by rewrite H. Qed.

Lemma bind_SysExit (m : M A) (k : A -> M B) (w : world) (c : Z) :
  outcome_of (m w) = SysExit c ->
  (m ≫= k) w = Run (SysExit c) (world_of (m w)) (events_of (m w)).
Proof. intros H. unfold mbind, M_bind, bind. by rewrite H. Qed.

(** A sequence that returns has returned from its first part. *)
Lemma bind_Ok_inv (m : M A) (k : A -> M B) (w : world) (b : B) :
  outcome_of ((m ≫= k) w) = Ok b ->
  exists a, outcome_of (m w) = Ok a /\ outcome_of (k a (world_of (m w))) = Ok b.
Proof.
  unfold mbind, M_bind, bind. destruct (outcome_of (m w)) as [a| |]; simpl; try discriminate.
  intros H. by exists a.
Qed.

End RunFacts.

Section Replay.

Lemma replay_app (evs evs' : list event) (f : gmap Path node) :
  replay (evs ++ evs') f = replay evs' (replay evs f).
Proof. apply foldl_app. Qed.

Lemma append_file_other (p q : Path) (data : string) (f : gmap Path node) :
  p <> q -> append_file p data f !! q = f !! q.
Proof.
  intros Hne. unfold append_file.
  destruct (f !! p) as [[|old]|]; [reflexivity | | reflexivity].
  by rewrite lookup_insert_ne.
Qed.

Lemma deliver_other (out err : redirect) (output : list (stream * string))
    (f : gmap Path node) (q : Path) :
  q ∉ redirect_targets out err -> deliver out err output f !! q = f !! q.
Proof.
  unfold deliver. generalize (redirect_targets out err) as ps.
  intros ps. revert f. induction ps as [|p ps IH]; intros f Hq; simpl; [reflexivity |].
  apply not_elem_of_cons in Hq as [Hne Hq].
  rewrite (IH _ Hq). by apply append_file_other.
Qed.

Lemma apply_event_other (ev : event) (f : gmap Path node) (q : Path) :
  spares q ev -> apply_event ev f !! q = f !! q.
Proof.
  unfold spares. destruct ev as [argv out err [e|rc output]|p|p|p data|s line]; simpl; intros Hq;
    try reflexivity;
    try (apply lookup_insert_ne; intros ->; apply Hq; by left).
  by apply deliver_other.
Qed.

(** Events that spare a path leave it as it was. *)
Lemma replay_other (evs : list event) (f : gmap Path node) (q : Path) :
  Forall (spares q) evs -> replay evs f !! q = f !! q.
Proof.
  revert f. induction evs as [|ev evs IH]; intros f Hq; [reflexivity |].
  apply Forall_cons in Hq as [Hev Hq]. simpl.
  change (replay evs (apply_event ev f) !! q = f !! q).
  rewrite (IH _ Hq). by apply apply_event_other.
Qed.

Lemma sound_ret {A} (a : A) : sound (mret a).
Proof. intros w. reflexivity. Qed.

Lemma sound_raise {A} (e : exn) : sound (@raise A e).
Proof. intros w. reflexivity. Qed.

Lemma sound_sys_exit {A} (c : Z) : sound (@sys_exit A c).
Proof. intros w. reflexivity. Qed.

Lemma sound_print (s : stream) (line : string) : sound (print s line).
Proof. intros w. reflexivity. Qed.

Lemma sound_bind {A B} (m : M A) (k : A -> M B) :
  sound m -> (forall a, sound (k a)) -> sound (m ≫= k).
Proof.
  intros Hm Hk w. unfold mbind, M_bind, bind. specialize (Hm w).
  destruct (outcome_of (m w)) as [a| |]; simpl; try exact Hm.
  rewrite replay_app, <- Hm. apply Hk.
Qed.

Lemma sound_try_FileNotFoundError {A} (m h : M A) :
  sound m -> sound h -> sound (try_except_FileNotFoundError m h).
Proof.
  intros Hm Hh w. unfold try_except_FileNotFoundError. specialize (Hm w).
  destruct (outcome_of (m w)) as [a|[]|]; simpl; try exact Hm.
  rewrite replay_app, <- Hm. apply Hh.
Qed.

Lemma sound_try_OSError {A} (m : M A) (h : exn -> M A) :
  sound m -> (forall e, sound (h e)) -> sound (try_except_OSError m h).
Proof.
  intros Hm Hh w. unfold try_except_OSError. specialize (Hm w).
  destruct (outcome_of (m w)) as [a|e|]; simpl; try exact Hm.
  rewrite replay_app, <- Hm. apply Hh.
Qed.

Lemma sound_os_mkdir (p : Path) : sound (os_mkdir p).
Proof.
  intros w. unfold os_mkdir, mbind, M_bind, bind, get_fs. simpl.
  destruct (fs_get (fs w) p); [reflexivity |].
  destruct (fs_get (fs w) (Pathlib.parent p)) as [[|c]|]; reflexivity.
Qed.

Lemma sound_mkdir_exists (p : Path) (exist_ok : bool) (e : exn) :
  sound (mkdir_exists p exist_ok e).
Proof.
  intros w. unfold mkdir_exists, mbind, M_bind, bind, get_fs. simpl.
  destruct (negb exist_ok || negb (is_dir (fs w) p)); reflexivity.
Qed.

Lemma sound_mkdir_plain (p : Path) (exist_ok : bool) : sound (mkdir_plain p exist_ok).
Proof.
  apply sound_try_OSError; [apply sound_os_mkdir |].
  intros []; (apply sound_raise || apply sound_mkdir_exists).
Qed.

Lemma sound_mkdir_parents (r : string) (rparts : list string) (exist_ok : bool) :
  sound (mkdir_parents r rparts exist_ok).
Proof.
  revert exist_ok. induction rparts as [|c up IH]; intros exist_ok; simpl;
    (apply sound_try_OSError; [apply sound_os_mkdir |]);
    intros []; try apply sound_raise; try apply sound_mkdir_exists.
  apply sound_bind; [apply IH | intros _; apply sound_mkdir_plain].
Qed.

Lemma sound_mkdir (p : Path) (parents exist_ok : bool) : sound (mkdir p parents exist_ok).
Proof. destruct parents; [apply sound_mkdir_parents | apply sound_mkdir_plain]. Qed.

Lemma sound_open_w (p : Path) : sound (open_w p).
Proof.
  intros w. unfold open_w, create_file, mbind, M_bind, bind, get_fs. simpl.
  destruct (fs_get (fs w) p) as [[|c]|]; try reflexivity.
  destruct (fs_get (fs w) (Pathlib.parent p)) as [[|c]|]; reflexivity.
Qed.

Lemma sound_write_text (p : Path) (data : string) : sound (write_text p data).
Proof.
  intros w. unfold write_text, create_file, mbind, M_bind, bind, get_fs. simpl.
  destruct (fs_get (fs w) p) as [[|c]|]; try reflexivity.
  destruct (fs_get (fs w) (Pathlib.parent p)) as [[|c]|]; reflexivity.
Qed.

Lemma sound_subprocess_run (E : env) (argv : list string) (out err : redirect) :
  sound (subprocess_run E argv out err).
Proof.
  intros w. unfold subprocess_run.
  destruct (env_spawn E (clock w) argv) as [e|rc output]; reflexivity.
Qed.

End Replay.

(** ** The locator *)

Section Locator.

Variable E : env.

Lemma acceptable_spec (rc : Z) : acceptable rc = true <-> rc = 0 \/ rc = 1.
Proof. unfold acceptable. lia. Qed.

Lemma probe_run (c : string) (w : world) :
  probe E c w =
  Run (match env_spawn E (clock w) [c; "-h"] with
       | Failed FileNotFoundError => Ok None
       | Failed e => Raise e
       | Started rc _ => Ok (if acceptable rc then Some c else None)
       end)
      {| fs := fs w; clock := S (clock w) |}
      [EvSpawn [c; "-h"] ToPipe ToPipe (env_spawn E (clock w) [c; "-h"])].
Proof.
  unfold probe, try_except_FileNotFoundError, mbind, M_bind, bind, subprocess_run.
  destruct (env_spawn E (clock w) [c; "-h"]) as [[]|rc output]; reflexivity.
Qed.

(** The locator does what [locate] reads off the answers, probes the
    candidates in order up to the one that ends the search, and leaves the
    file system alone. *)
Lemma find_vol_in_run (cs : list string) (w : world) :
  find_vol_in E cs w =
  Run (locate (answers E (clock w) cs))
      {| fs := fs w; clock := clock w + tried (answers E (clock w) cs) |}
      (probe_event <$> take (tried (answers E (clock w) cs)) (answers E (clock w) cs)).
Proof.
  revert w. induction cs as [|c cs IH]; intros w; simpl.
  - destruct w as [f n]. unfold mret, M_ret, ret. simpl. by rewrite Nat.add_0_r.
  - unfold mbind, M_bind, bind. rewrite probe_run. simpl.
    destruct (env_spawn E (clock w) [c; "-h"]) as [e|rc output] eqn:Hr; simpl.
    + destruct e; simpl; rewrite ?Nat.add_1_r; try reflexivity.
      rewrite IH. simpl. by rewrite Nat.add_succ_r.
    + destruct (acceptable rc); simpl; rewrite ?Nat.add_1_r; [reflexivity |].
      rewrite IH. simpl. by rewrite Nat.add_succ_r.
Qed.

Lemma find_vol_run (w : world) :
  find_vol E w =
  Run (locate (answers E (clock w) CANDIDATE_CMDS))
      {| fs := fs w; clock := clock w + tried (answers E (clock w) CANDIDATE_CMDS) |}
      (probe_event <$> take (tried (answers E (clock w) CANDIDATE_CMDS))
                            (answers E (clock w) CANDIDATE_CMDS)).
Proof. apply find_vol_in_run. Qed.

Lemma locate_passed_over (ans : list (string * spawn_result)) :
  Forall (fun a => passed_over a.2) ans -> locate ans = Ok None /\ tried ans = length ans.
Proof.
  induction 1 as [|[c r] ans Hr _ [IH1 IH2]]; [by split |].
  simpl in *. destruct r as [e|rc output]; simpl in Hr.
  - subst e. by rewrite IH2.
  - rewrite Hr. by rewrite IH2.
Qed.

(** What the locator returns is a candidate, and not the empty text. *)
Lemma locate_Some (n : nat) (cs : list string) (v : string) :
  locate (answers E n cs) = Ok (Some v) -> v ∈ cs.
Proof.
  revert n. induction cs as [|c cs IH]; intros n; simpl; [discriminate |].
  destruct (env_spawn E n [c; "-h"]) as [e|rc output].
  - destruct e; try discriminate. intros H. right. by eapply IH.
  - destruct (acceptable rc).
    + intros [= ->]. by left.
    + intros H. right. by eapply IH.
Qed.

End Locator.

Section LocatorAnswers.

Variable E : env.

Lemma answers_app (n : nat) (cs cs' : list string) :
  answers E n (cs ++ cs') = answers E n cs ++ answers E (n + length cs) cs'.
Proof.
  revert n. induction cs as [|c cs IH]; intros n; simpl.
  - by rewrite Nat.add_0_r.
  - by rewrite IH, Nat.add_succ_r.
Qed.

Lemma answers_length (n : nat) (cs : list string) : length (answers E n cs) = length cs.
Proof. revert n. induction cs as [|c cs IH]; intros n; simpl; [reflexivity | by rewrite IH]. Qed.

Lemma locate_app (ans rest : list (string * spawn_result)) :
  Forall (fun a => passed_over a.2) ans ->
  locate (ans ++ rest) = locate rest /\ tried (ans ++ rest) = (length ans + tried rest)%nat.
Proof.
  induction 1 as [|[c r] ans Hr _ [IH1 IH2]]; [by split |].
  simpl in *. destruct r as [e|rc output]; simpl in Hr.
  - subst e. by rewrite IH1, IH2.
  - by rewrite Hr, IH1, IH2.
Qed.

Lemma locate_first_acceptable (ans : list (string * spawn_result)) :
  Forall (fun a => starts_or_missing a.2) ans -> locate ans = Ok (first_acceptable ans).
Proof.
  induction 1 as [|[c r] ans Hr _ IH]; [reflexivity |].
  simpl in *. destruct r as [e|rc output].
  - by rewrite (Hr e eq_refl).
  - rewrite IH. by destruct (acceptable rc).
Qed.

Lemma candidate_truthy (n : nat) (v : string) :
  locate (answers E n CANDIDATE_CMDS) = Ok (Some v) -> truthy_str (Some v) = true.
Proof.
  intros H. apply locate_Some in H. unfold CANDIDATE_CMDS in H.
  repeat (apply elem_of_cons in H as [->|H]; [reflexivity |]).
  by apply elem_of_nil in H.
Qed.

(** ** [main], by what the locator finds *)

Lemma main_not_found (argv : CommandLine) (w : world) :
  locate (answers E (clock w) CANDIDATE_CMDS) = Ok None ->
  main E argv w =
  Run (SysExit 2)
      {| fs := fs w; clock := clock w + tried (answers E (clock w) CANDIDATE_CMDS) |}
      ((probe_event <$> take (tried (answers E (clock w) CANDIDATE_CMDS))
                             (answers E (clock w) CANDIDATE_CMDS))
       ++ [EvPrint Stderr not_found_message]).
Proof.
  intros H. unfold main, mbind, M_bind, bind. rewrite find_vol_run.
  remember (answers E (clock w) CANDIDATE_CMDS) as ans. simpl. rewrite H.
  reflexivity.
Qed.

Lemma main_raise (argv : CommandLine) (w : world) (e : exn) :
  locate (answers E (clock w) CANDIDATE_CMDS) = Raise e ->
  main E argv w =
  Run (Raise e)
      {| fs := fs w; clock := clock w + tried (answers E (clock w) CANDIDATE_CMDS) |}
      (probe_event <$> take (tried (answers E (clock w) CANDIDATE_CMDS))
                            (answers E (clock w) CANDIDATE_CMDS)).
Proof.
  intros H. unfold main, mbind, M_bind, bind. rewrite find_vol_run.
  remember (answers E (clock w) CANDIDATE_CMDS) as ans. simpl. rewrite H.
  reflexivity.
Qed.

Lemma main_found (argv : CommandLine) (w : world) (v : string) :
  locate (answers E (clock w) CANDIDATE_CMDS) = Ok (Some v) ->
  let probes := probe_event <$> take (tried (answers E (clock w) CANDIDATE_CMDS))
                                     (answers E (clock w) CANDIDATE_CMDS) in
  let r := triage E (parse_args argv) v
             {| fs := fs w; clock := clock w + tried (answers E (clock w) CANDIDATE_CMDS) |} in
  main E argv w = Run (outcome_of r) (world_of r) (probes ++ events_of r).
Proof.
  intros H. pose proof (candidate_truthy _ _ H) as Ht.
  unfold main, mbind, M_bind, bind. rewrite find_vol_run.
  remember (answers E (clock w) CANDIDATE_CMDS) as ans. simpl. rewrite H.
  destruct v as [|c v]; [discriminate Ht | reflexivity].
Qed.

Lemma locate_no_SysExit (ans : list (string * spawn_result)) (c : Z) :
  locate ans <> SysExit c.
Proof.
  induction ans as [|[v [e|rc output]] ans IH]; simpl; [discriminate | |].
  - by destruct e.
  - by destruct (acceptable rc).
Qed.

End LocatorAnswers.

(** ** The tool is not found *)







(** C9.  A candidate reached by the locator, the ones before it having been
    passed over, fails to start.  If the error is [FileNotFoundError] the
    candidate is skipped and the search goes on with the candidates after
    it.  Any other error leaves [main] uncaught: the exit status is 1, the
    candidates after it are not probed, the message of the tool not being
    found is not printed, and nothing was written. *)
Theorem probe_error_propagates (E : env) (argv : CommandLine) (w : world)
    (before after : list string) (c : string) (e : exn) :
  CANDIDATE_CMDS = before ++ c :: after ->
  Forall (fun a => passed_over a.2) (answers E (clock w) before) ->
  env_spawn E (clock w + length before) [c; "-h"] = Failed e ->
  let r := main E argv w in
  match e with
  | FileNotFoundError =>
      outcome_of (find_vol E w) = locate (answers E (clock w + S (length before)) after)
  | _ =>
      outcome_of r = Raise e /\
      exit_status (outcome_of r) = 1 /\
      events_of r = (probe_event <$> answers E (clock w) (before ++ [c])) /\
      printed Stderr (events_of r) = [] /\
      written (events_of r) = [] /\
      fs (world_of r) = fs w
  end.
Proof.
  intros Hcs Hbefore Hc r.
  assert (answers E (clock w) CANDIDATE_CMDS =
          answers E (clock w) before ++ (c, Failed e)
            :: answers E (clock w + S (length before)) after) as Hans.
  { rewrite Hcs, answers_app. simpl. by rewrite Hc, Nat.add_succ_r. }
  destruct (locate_app _ ((c, Failed e) :: answers E (clock w + S (length before)) after) Hbefore)
    as [Hloc Htried].
  rewrite <- Hans in Hloc, Htried.
  assert (e <> FileNotFoundError ->
          outcome_of r = Raise e /\
          exit_status (outcome_of r) = 1 /\
          events_of r = (probe_event <$> answers E (clock w) (before ++ [c])) /\
          printed Stderr (events_of r) = [] /\
          written (events_of r) = [] /\
          fs (world_of r) = fs w) as Hother.
  { intros Hne.
    assert (locate (answers E (clock w) CANDIDATE_CMDS) = Raise e) as Hl.
    { rewrite Hloc. simpl. by destruct e. }
    assert (tried (answers E (clock w) CANDIDATE_CMDS) = S (length before)) as Ht.
    { rewrite Htried, answers_length. simpl. destruct e; (contradiction || lia). }
    subst r. rewrite (main_raise E argv w e Hl), Ht. cbn [outcome_of events_of world_of fs].
    assert (take (S (length before)) (answers E (clock w) CANDIDATE_CMDS)
            = answers E (clock w) (before ++ [c])) as Htake.
    { rewrite Hans, answers_app. simpl. rewrite Hc.
      rewrite take_app_ge by (rewrite answers_length; lia).
      rewrite answers_length. replace (S (length before) - length before)%nat with 1%nat by lia.
      reflexivity. }
    rewrite Htake. repeat split; try reflexivity.
    - generalize (answers E (clock w) (before ++ [c])) as l.
      induction l as [|a l IH]; [reflexivity | exact IH].
    - generalize (answers E (clock w) (before ++ [c])) as l.
      induction l as [|a l IH]; [reflexivity | exact IH]. }
  destruct e; try (apply Hother; discriminate).
  rewrite find_vol_run. cbn [outcome_of]. rewrite Hloc. reflexivity.
Qed.

Lemma probe_error_propagates_witness :
  let r := main env_vol_denied sample_argv empty_world in
  env_spawn env_vol_denied 0 ["vol"; "-h"] = Failed PermissionError /\
  outcome_of r = Raise PermissionError /\
  exit_status (outcome_of r) = 1 /\
  events_of r = [EvSpawn ["vol"; "-h"] ToPipe ToPipe (Failed PermissionError)] /\
  printed Stderr (events_of r) = [] /\
  written (events_of r) = [] /\
  fs (world_of r) = ∅.
Proof.
  split; [reflexivity |].
  apply (probe_error_propagates env_vol_denied sample_argv empty_world
           [] ["vol.py"; "volatility3"] "vol" PermissionError);
    [reflexivity | constructor | reflexivity].
Defined.

(** ** One plugin *)

Section RunPlugin.

Lemma create_file_ok (p : Path) (data : string) (ev : event) (w : world) :
  writable (fs w) p ->
  create_file p data ev w =
  Run (Ok tt) {| fs := <[p := File data]> (fs w); clock := clock w |} [ev].
Proof.
  unfold writable, create_file, mbind, M_bind, bind, get_fs. simpl.
  destruct (fs_get (fs w) p) as [[|c]|]; [contradiction | reflexivity |].
  intros ->. reflexivity.
Qed.

Lemma create_file_blocked (p : Path) (data : string) (ev : event) (w : world) :
  ~ writable (fs w) p -> exists e, create_file p data ev w = Run (Raise e) w [].
Proof.
  unfold writable, create_file, mbind, M_bind, bind, get_fs. simpl.
  destruct (fs_get (fs w) p) as [[|c]|]; [by eexists | tauto |].
  destruct (fs_get (fs w) (Pathlib.parent p)) as [[|c]|]; [congruence | by eexists..].
Qed.

Lemma combined_all (p : Path) (output : list (stream * string)) :
  written_to p (ToFile p) (ToFile p) output = combined output.
Proof.
  unfold written_to, combined. f_equal. f_equal.
  induction output as [|[s c] output IH]; [reflexivity |].
  rewrite filter_cons_True, IH; [reflexivity | by destruct s].
Qed.

(** A child whose two streams are open on the same fresh file leaves in it
    all it wrote. *)
Lemma deliver_fresh (p : Path) (output : list (stream * string)) (f : gmap Path node) :
  deliver (ToFile p) (ToFile p) output (<[p := File ""]> f) = <[p := File (combined output)]> f.
Proof.
  unfold deliver, redirect_targets. rewrite decide_True by reflexivity. simpl.
  unfold append_file. rewrite lookup_insert_eq, insert_insert_eq, combined_all.
  reflexivity.
Qed.

Lemma plugin_argv_truthy (volcmd img plugin : string) (kargs : option (list string)) :
  (if truthy_list kargs then [volcmd; "-f"; img; plugin] ++ default [] kargs
   else [volcmd; "-f"; img; plugin]) = plugin_argv volcmd img plugin kargs.
Proof. by destruct kargs as [[|k ks]|]. Qed.

Lemma run_plugin_run (E : env) (volcmd img plugin : string) (outpath : Path)
    (kargs : option (list string)) (w : world) :
  writable (fs w) outpath ->
  let argv := plugin_argv volcmd img plugin kargs in
  let r := env_spawn E (clock w) argv in
  run_plugin E volcmd img plugin outpath kargs w =
  Run (match r with Failed e => Raise e | Started _ _ => Ok tt end)
      {| fs := <[outpath := File (match r with
                                  | Failed _ => ""
                                  | Started _ output => combined output
                                  end)]> (fs w);
         clock := S (clock w) |}
      [EvOpenW outpath; EvSpawn argv (ToFile outpath) (ToFile outpath) r].
Proof.
  intros Hw argv r. unfold run_plugin. rewrite plugin_argv_truthy. fold argv.
  unfold open_w, mbind, M_bind, bind. rewrite (create_file_ok _ _ _ _ Hw).
  cbn [outcome_of world_of events_of]. unfold subprocess_run. cbn [fs clock].
  fold r. destruct r as [e|rc output]; cbn [outcome_of world_of events_of].
  - reflexivity.
  - rewrite deliver_fresh. reflexivity.
Qed.

Lemma run_plugin_blocked (E : env) (volcmd img plugin : string) (outpath : Path)
    (kargs : option (list string)) (w : world) :
  ~ writable (fs w) outpath ->
  exists e, run_plugin E volcmd img plugin outpath kargs w = Run (Raise e) w [].
Proof.
  intros Hw. destruct (create_file_blocked outpath "" (EvOpenW outpath) w Hw) as [e He].
  exists e. unfold run_plugin, open_w, mbind, M_bind, bind. by rewrite He.
Qed.

End RunPlugin.

(** C6.  [run_plugin], when the output file can be opened: the file is
    opened for writing first, which empties it; then one child is run with
    the argument vector made of the command, "-f", the image, the plugin
    and the extra arguments if any, its standard output and its standard
    error both on that file; the call returns when the child has ended, and
    the file then holds all the child wrote on either stream, in the order
    it wrote it, and nothing of what it held before.  A child that cannot
    be started leaves the file empty and its error raised. *)
Theorem run_plugin_captures (E : env) (volcmd img plugin : string) (outpath : Path)
    (kargs : option (list string)) (w : world) :
  writable (fs w) outpath ->
  let argv := [volcmd; "-f"; img; plugin] ++ default [] kargs in
  let r := run_plugin E volcmd img plugin outpath kargs w in
  events_of r =
    [EvOpenW outpath;
     EvSpawn argv (ToFile outpath) (ToFile outpath) (env_spawn E (clock w) argv)] /\
  clock (world_of r) = S (clock w) /\
  match env_spawn E (clock w) argv with
  | Started rc output =>
      outcome_of r = Ok tt /\
      fs (world_of r) = <[outpath := File (combined output)]> (fs w)
  | Failed e =>
      outcome_of r = Raise e /\
      fs (world_of r) = <[outpath := File ""]> (fs w)
  end.
Proof.
  intros Hw argv r. subst r. rewrite (run_plugin_run E volcmd img plugin outpath kargs w Hw).
  fold (plugin_argv volcmd img plugin kargs). fold argv.
  cbn [outcome_of world_of events_of fs clock].
  change (plugin_argv volcmd img plugin kargs) with argv.
  destruct (env_spawn E (clock w) argv) as [e|rc output]; repeat split; reflexivity.
Qed.

Lemma run_plugin_captures_witness :
  let w := {| fs := {[ Pathlib.of_string "case/raw/windows_pslist.txt" := File "stale" ]};
              clock := 2 |} in
  let p := Pathlib.of_string "case/raw/windows_pslist.txt" in
  let r := run_plugin (env_vol_py 1) "vol.py" "mem.raw" "windows.pslist" p (Some ["--pid"; "4"]) w in
  writable (fs w) p /\
  events_of r =
    [EvOpenW p;
     EvSpawn ["vol.py"; "-f"; "mem.raw"; "windows.pslist"; "--pid"; "4"] (ToFile p) (ToFile p)
       (Started 1 [(Stdout, "PID PPID"); (Stderr, "WARNING"); (Stdout, "4 0")])] /\
  clock (world_of r) = 3%nat /\
  outcome_of r = Ok tt /\
  fs (world_of r) = <[p := File "PID PPIDWARNING4 0"]> (fs w).
Proof.
  intros w p r.
  assert (writable (fs w) p) as Hw by (vm_compute; exact I).
  split; [exact Hw |].
  apply (run_plugin_captures (env_vol_py 1) "vol.py" "mem.raw" "windows.pslist" p
           (Some ["--pid"; "4"]) w Hw).
Defined.

(** ** Events of a given kind *)

Section Emits.

Context {A B : Type}.

Lemma emits_ret (P : event -> Prop) (a : A) : emits P (mret a).
Proof. intros w. constructor. Qed.

Lemma emits_raise (P : event -> Prop) (e : exn) : emits P (@raise A e).
Proof. intros w. constructor. Qed.

Lemma emits_bind (P : event -> Prop) (m : M A) (k : A -> M B) :
  emits P m -> (forall a, emits P (k a)) -> emits P (m ≫= k).
Proof.
  intros Hm Hk w. unfold mbind, M_bind, bind. specialize (Hm w).
  destruct (outcome_of (m w)) as [a| |]; simpl; try exact Hm.
  apply Forall_app. split; [exact Hm | apply Hk].
Qed.

Lemma emits_try_OSError (P : event -> Prop) (m : M A) (h : exn -> M A) :
  emits P m -> (forall e, emits P (h e)) -> emits P (try_except_OSError m h).
Proof.
  intros Hm Hh w. unfold try_except_OSError. specialize (Hm w).
  destruct (outcome_of (m w)) as [a|e|]; simpl; try exact Hm.
  apply Forall_app. split; [exact Hm | apply Hh].
Qed.

Lemma emits_impl (P Q : event -> Prop) (m : M A) :
  (forall ev, P ev -> Q ev) -> emits P m -> emits Q m.
Proof. intros HPQ Hm w. eapply Forall_impl; [apply Hm | exact HPQ]. Qed.

(** Sequencing is associative. *)
Lemma bind_assoc {C : Type} (m : M A) (k : A -> M B) (h : B -> M C) (w : world) :
  ((m ≫= k) ≫= h) w = (m ≫= (fun a => k a ≫= h)) w.
Proof.
  unfold mbind, M_bind, bind.
  destruct (outcome_of (m w)) as [a| |]; simpl; try reflexivity.
  destruct (outcome_of (k a (world_of (m w)))) as [b| |]; simpl; try reflexivity.
  by rewrite app_assoc.
Qed.

End Emits.

Section MkdirEvents.

Lemma emits_os_mkdir (p : Path) : emits (fun ev => ev = EvMkdir p) (os_mkdir p).
Proof.
  intros w. unfold os_mkdir, mbind, M_bind, bind, get_fs. simpl.
  destruct (fs_get (fs w) p); [constructor |].
  destruct (fs_get (fs w) (Pathlib.parent p)) as [[|c]|]; repeat constructor.
Qed.

Lemma emits_mkdir_exists (P : event -> Prop) (p : Path) (exist_ok : bool) (e : exn) :
  emits P (mkdir_exists p exist_ok e).
Proof.
  intros w. unfold mkdir_exists, mbind, M_bind, bind, get_fs. simpl.
  destruct (negb exist_ok || negb (is_dir (fs w) p)); constructor.
Qed.

Lemma emits_mkdir_plain (p : Path) (exist_ok : bool) :
  emits (fun ev => ev = EvMkdir p) (mkdir_plain p exist_ok).
Proof.
  apply emits_try_OSError; [apply emits_os_mkdir |].
  intros []; (apply emits_raise || apply emits_mkdir_exists).
Qed.

(** Making a directory and its parents makes directories no deeper than
    the directory itself. *)
Lemma emits_mkdir_parents (r : string) (rparts : list string) (exist_ok : bool) :
  emits (mkdir_event r (length rparts)) (mkdir_parents r rparts exist_ok).
Proof.
  revert exist_ok. induction rparts as [|c up IH]; intros exist_ok.
  - simpl. apply emits_try_OSError.
    + eapply emits_impl; [| apply emits_os_mkdir]. intros ev ->. by split.
    + intros []; (apply emits_raise || apply emits_mkdir_exists).
  - assert (emits (mkdir_event r (length (c :: up)))
                  (os_mkdir {| root := r; parts := rev (c :: up) |})) as Hos.
    { eapply emits_impl; [| apply emits_os_mkdir]. intros ev ->.
      split; [reflexivity |]. cbn [parts]. by rewrite length_rev. }
    cbn [mkdir_parents]. apply emits_try_OSError; [exact Hos |].
    intros []; try apply emits_raise; try apply emits_mkdir_exists.
    apply emits_bind.
    + eapply emits_impl; [| apply IH]. intros [] H; try contradiction.
      destruct H as [Hr Hl]. split; [exact Hr | simpl; lia].
    + intros _. eapply emits_impl; [| apply emits_mkdir_plain]. intros ev ->.
      split; [reflexivity |]. cbn [parts]. by rewrite length_rev.
Qed.

End MkdirEvents.

(** ** The loop over the plugins *)

Section Loop.

Variable E : env.
Variables vol img : string.
Variable out : Path.

Lemma for_plugins_cons (plg : string) (rest summary : list string) (w : world) :
  let target := target_of out plg in
  let line := "[*] Running " +:+ plg +:+ " → " +:+ Pathlib.to_string target in
  let r1 := run_plugin E vol img plg target None w in
  for_plugins E vol img out (plg :: rest) summary w =
  match outcome_of r1 with
  | Ok _ =>
      let r2 := for_plugins E vol img out rest (summary ++ [summary_line target]) (world_of r1) in
      Run (outcome_of r2) (world_of r2) (EvPrint Stdout line :: events_of r1 ++ events_of r2)
  | Raise e => Run (Raise e) (world_of r1) (EvPrint Stdout line :: events_of r1)
  | SysExit c => Run (SysExit c) (world_of r1) (EvPrint Stdout line :: events_of r1)
  end.
Proof.
  intros target line r1. cbn [for_plugins]. unfold mbind, M_bind, bind, print.
  cbn [outcome_of world_of events_of]. fold target. fold r1.
  destruct (outcome_of r1); reflexivity.
Qed.

Lemma emits_run_plugin (plugin : string) (outpath : Path) (kargs : option (list string)) :
  emits (fun ev => ev = EvOpenW outpath \/
                   exists argv r, ev = EvSpawn argv (ToFile outpath) (ToFile outpath) r)
        (run_plugin E vol img plugin outpath kargs).
Proof.
  intros w. destruct (decide (writable (fs w) outpath)) as [Hw|Hw].
  - rewrite (run_plugin_run E vol img plugin outpath kargs w Hw). cbn [events_of].
    apply Forall_cons; split; [by left |].
    apply Forall_cons; split; [right; by eexists _, _ | constructor].
  - destruct (run_plugin_blocked E vol img plugin outpath kargs w Hw) as [e ->]. constructor.
Qed.

Lemma loop_event_mono (plg : string) (plgs : list string) (ev : event) :
  loop_event out plgs ev -> loop_event out (plg :: plgs) ev.
Proof.
  destruct ev as [argv o e r|p|p|p data|[] line]; simpl; try tauto.
  - intros (x & Hx & H). exists x. split; [by right | exact H].
  - intros (x & Hx & H). exists x. split; [by right | exact H].
Qed.

(** Whatever happens, the loop only prints, opens output files of the
    plugins, and runs children with both streams on such a file. *)
Lemma emits_for_plugins (plgs summary : list string) :
  emits (loop_event out plgs) (for_plugins E vol img out plgs summary).
Proof.
  revert summary. induction plgs as [|plg rest IH]; intros summary w; [constructor |].
  rewrite for_plugins_cons.
  pose proof (emits_run_plugin plg (target_of out plg) None w) as H1.
  assert (Forall (loop_event out (plg :: rest))
                 (events_of (run_plugin E vol img plg (target_of out plg) None w))) as H1'.
  { eapply Forall_impl; [exact H1 |]. intros ev [->|(argv & r & ->)]; simpl.
    - exists plg. split; [by left | reflexivity].
    - exists plg. split; [by left | by split]. }
  destruct (outcome_of (run_plugin E vol img plg (target_of out plg) None w));
    cbn [events_of]; constructor; try exact I; try exact H1'.
  apply Forall_app. split; [exact H1' |].
  eapply Forall_impl; [apply IH |]. apply loop_event_mono.
Qed.

(** A loop that completes has run every plugin, in order, and has appended
    one line per plugin to the summary. *)
Lemma for_plugins_Ok (plgs summary summary' : list string) (w : world) :
  outcome_of (for_plugins E vol img out plgs summary w) = Ok summary' ->
  summary' = summary ++ (summary_line <$> (target_of out <$> plgs)) /\
  events_of (for_plugins E vol img out plgs summary w) = loop_events E vol img out plgs (clock w) /\
  clock (world_of (for_plugins E vol img out plgs summary w)) = (clock w + length plgs)%nat.
Proof.
  revert summary w. induction plgs as [|plg rest IH]; intros summary w.
  - simpl. intros [= <-]. by rewrite app_nil_r, Nat.add_0_r.
  - rewrite for_plugins_cons.
    destruct (decide (writable (fs w) (target_of out plg))) as [Hw|Hw].
    + rewrite (run_plugin_run E vol img plg (target_of out plg) None w Hw).
      cbn [outcome_of world_of events_of].
      change (plugin_argv vol img plg None) with [vol; "-f"; img; plg].
      destruct (env_spawn E (clock w) [vol; "-f"; img; plg]) as [e|rc output] eqn:Hr;
        cbn [outcome_of world_of events_of]; [discriminate |].
      intros H. destruct (IH _ _ H) as (-> & Hev & Hclock).
      rewrite Hev, Hclock. cbn [clock fmap list_fmap loop_events]. rewrite Hr.
      repeat split; [by rewrite <- app_assoc | simpl; lia].
    + destruct (run_plugin_blocked E vol img plg (target_of out plg) None w Hw) as [e ->].
      discriminate.
Qed.

Lemma opened_loop_events (plgs : list string) (n : nat) :
  opened (loop_events E vol img out plgs n) = target_of out <$> plgs.
Proof.
  revert n. induction plgs as [|plg rest IH]; intros n; [reflexivity |].
  cbn [loop_events]. unfold opened in *. simpl. by rewrite IH.
Qed.

Lemma captured_runs_loop_events (plgs : list string) (n : nat) :
  captured_runs (loop_events E vol img out plgs n) = (fun plg => [vol; "-f"; img; plg]) <$> plgs.
Proof.
  revert n. induction plgs as [|plg rest IH]; intros n; [reflexivity |].
  cbn [loop_events]. unfold captured_runs in *. simpl. by rewrite IH.
Qed.

End Loop.

Section Halves.

Variable E : env.
Variable args : Namespace.
Variable vol : string.

Lemma triage_split (w : world) :
  triage E args vol w = (collect E args vol ≫= report args) w.
Proof.
  unfold triage, collect, report, mbind, M_bind, bind.
  destruct (outcome_of (mkdir (Pathlib.of_string (outdir args)) true true w));
    cbn [outcome_of world_of events_of]; try reflexivity.
  destruct (outcome_of (mkdir (Pathlib.joinpath (Pathlib.of_string (outdir args)) "raw")
                          false true _));
    cbn [outcome_of world_of events_of]; try reflexivity.
  destruct (outcome_of (for_plugins E vol (file args) _ (plugins args) _ _));
    cbn [outcome_of world_of events_of]; try reflexivity.
  destruct (outcome_of (write_text _ _ _)); cbn [outcome_of world_of events_of];
    rewrite <- ?app_assoc; reflexivity.
Qed.

End Halves.

(** ** Making the directories *)

Section Mkdir.

Lemma keeps_clock_bind {A B} (m : M A) (k : A -> M B) :
  keeps_clock m -> (forall a, keeps_clock (k a)) -> keeps_clock (m ≫= k).
Proof.
  intros Hm Hk w. unfold mbind, M_bind, bind. specialize (Hm w).
  destruct (outcome_of (m w)) as [a| |]; simpl; try exact Hm.
  by rewrite Hk.
Qed.

Lemma keeps_clock_try_OSError {A} (m : M A) (h : exn -> M A) :
  keeps_clock m -> (forall e, keeps_clock (h e)) -> keeps_clock (try_except_OSError m h).
Proof.
  intros Hm Hh w. unfold try_except_OSError. specialize (Hm w).
  destruct (outcome_of (m w)) as [a|e|]; simpl; try exact Hm.
  by rewrite Hh.
Qed.

Lemma keeps_clock_os_mkdir (p : Path) : keeps_clock (os_mkdir p).
Proof.
  intros w. unfold os_mkdir, mbind, M_bind, bind, get_fs. simpl.
  destruct (fs_get (fs w) p); [reflexivity |].
  destruct (fs_get (fs w) (Pathlib.parent p)) as [[|c]|]; reflexivity.
Qed.

Lemma keeps_clock_mkdir_exists (p : Path) (exist_ok : bool) (e : exn) :
  keeps_clock (mkdir_exists p exist_ok e).
Proof.
  intros w. unfold mkdir_exists, mbind, M_bind, bind, get_fs. simpl.
  destruct (negb exist_ok || negb (is_dir (fs w) p)); reflexivity.
Qed.

Lemma keeps_clock_mkdir_plain (p : Path) (exist_ok : bool) :
  keeps_clock (mkdir_plain p exist_ok).
Proof.
  apply keeps_clock_try_OSError; [apply keeps_clock_os_mkdir |].
  intros []; try apply keeps_clock_mkdir_exists; intros w; reflexivity.
Qed.

Lemma keeps_clock_mkdir_parents (r : string) (rparts : list string) (exist_ok : bool) :
  keeps_clock (mkdir_parents r rparts exist_ok).
Proof.
  revert exist_ok. induction rparts as [|c up IH]; intros exist_ok; cbn [mkdir_parents];
    (apply keeps_clock_try_OSError; [apply keeps_clock_os_mkdir |]);
    intros []; try apply keeps_clock_mkdir_exists; try (intros w; reflexivity).
  apply keeps_clock_bind; [apply IH | intros _; apply keeps_clock_mkdir_plain].
Qed.

Lemma keeps_clock_mkdir (p : Path) (parents exist_ok : bool) :
  keeps_clock (mkdir p parents exist_ok).
Proof. destruct parents; [apply keeps_clock_mkdir_parents | apply keeps_clock_mkdir_plain]. Qed.

Lemma is_dir_spec (f : gmap Path node) (p : Path) : is_dir f p = true <-> fs_get f p = Some Dir.
Proof. unfold is_dir. destruct (fs_get f p) as [[|c]|]; split; congruence. Qed.

Lemma fs_get_insert_eq (f : gmap Path node) (p : Path) (n : node) :
  parts p <> [] -> fs_get (<[p := n]> f) p = Some n.
Proof. unfold fs_get. destruct (parts p); [contradiction |]. intros _. apply lookup_insert_eq. Qed.

Lemma fs_get_insert_ne (f : gmap Path node) (p q : Path) (n : node) :
  p <> q -> fs_get (<[p := n]> f) q = fs_get f q.
Proof. intros Hne. unfold fs_get. destruct (parts q); [reflexivity |]. by apply lookup_insert_ne. Qed.

Lemma fs_get_None_parts (f : gmap Path node) (p : Path) : fs_get f p = None -> parts p <> [].
Proof. unfold fs_get. destruct (parts p); [discriminate | discriminate]. Qed.

Lemma fs_get_ext (f g : gmap Path node) (p : Path) : f !! p = g !! p -> fs_get f p = fs_get g p.
Proof. intros H. unfold fs_get. by destruct (parts p). Qed.

(** [os.mkdir], case by case *)
Lemma os_mkdir_run (p : Path) (w : world) :
  os_mkdir p w =
  match fs_get (fs w) p with
  | Some _ => Run (Raise FileExistsError) w []
  | None =>
      match fs_get (fs w) (Pathlib.parent p) with
      | Some Dir => Run (Ok tt) {| fs := <[p := Dir]> (fs w); clock := clock w |} [EvMkdir p]
      | Some (File _) => Run (Raise NotADirectoryError) w []
      | None => Run (Raise FileNotFoundError) w []
      end
  end.
Proof.
  unfold os_mkdir, mbind, M_bind, bind, get_fs. simpl.
  destruct (fs_get (fs w) p); [reflexivity |].
  destruct (fs_get (fs w) (Pathlib.parent p)) as [[|c]|]; reflexivity.
Qed.

(** [p.mkdir(exist_ok=True)] where the parent is a directory and the path
    is not a regular file: the directory is there afterwards, made if it
    was not. *)
Lemma mkdir_plain_ok (p : Path) (w : world) :
  fs_get (fs w) (Pathlib.parent p) = Some Dir ->
  (forall c, fs_get (fs w) p <> Some (File c)) ->
  exists evs,
    mkdir_plain p true w =
    Run (Ok tt) {| fs := replay evs (fs w); clock := clock w |} evs /\
    (evs = [] \/ evs = [EvMkdir p]) /\
    fs_get (replay evs (fs w)) p = Some Dir.
Proof.
  intros Hparent Hfile. unfold mkdir_plain, try_except_OSError. rewrite os_mkdir_run.
  destruct (fs_get (fs w) p) as [[|c]|] eqn:Hp.
  - exists []. cbn [outcome_of world_of events_of]. unfold mkdir_exists, mbind, M_bind, bind, get_fs.
    cbn [outcome_of world_of events_of]. unfold is_dir. rewrite Hp. destruct w. simpl.
    split; [reflexivity | split; [by left | exact Hp]].
  - by destruct (Hfile c).
  - rewrite Hparent. exists [EvMkdir p]. cbn [outcome_of world_of events_of].
    split; [reflexivity | split; [by right |]].
    simpl. apply fs_get_insert_eq. by apply fs_get_None_parts in Hp.
Qed.

Lemma parent_rev_cons (r c : string) (up : list string) :
  Pathlib.parent {| root := r; parts := rev (c :: up) |} = {| root := r; parts := rev up |}.
Proof. unfold Pathlib.parent. simpl. by rewrite removelast_last. Qed.

(** [p.mkdir(parents=True, exist_ok=True)] where neither the path nor any
    of its ancestors is a regular file: it returns, and the directory is
    there. *)
Lemma mkdir_parents_ok (r : string) (rparts : list string) (w : world) :
  (forall k c, fs_get (fs w) {| root := r; parts := rev (drop k rparts) |} <> Some (File c)) ->
  outcome_of (mkdir_parents r rparts true w) = Ok tt /\
  fs_get (fs (world_of (mkdir_parents r rparts true w))) {| root := r; parts := rev rparts |}
  = Some Dir.
Proof.
  revert w. induction rparts as [|c up IH]; intros w Hfiles.
  - cbn [mkdir_parents]. unfold try_except_OSError. rewrite os_mkdir_run.
    change (fs_get (fs w) {| root := r; parts := rev [] |}) with (Some Dir).
    cbn [outcome_of world_of events_of]. split; reflexivity.
  - set (p := {| root := r; parts := rev (c :: up) |}).
    cbn [mkdir_parents]. fold p. unfold try_except_OSError. rewrite os_mkdir_run.
    destruct (fs_get (fs w) p) as [[|d]|] eqn:Hp.
    + cbn [outcome_of world_of events_of].
      unfold mkdir_exists, mbind, M_bind, bind, get_fs. cbn [outcome_of world_of events_of].
      unfold is_dir. rewrite Hp. simpl. by split.
    + by destruct (Hfiles 0%nat d).
    + assert (Pathlib.parent p = {| root := r; parts := rev up |}) as Hpar
        by apply parent_rev_cons.
      rewrite Hpar.
      destruct (fs_get (fs w) {| root := r; parts := rev up |}) as [[|d]|] eqn:Hup.
      * cbn [outcome_of world_of events_of fs]. split; [reflexivity |].
        apply fs_get_insert_eq. by apply fs_get_None_parts in Hp.
      * by destruct (Hfiles 1%nat d).
      * cbn [outcome_of world_of events_of].
        destruct (IH w) as [Hok Hdir]. { intros k d. apply (Hfiles (S k) d). }
        unfold mbind, M_bind, bind. rewrite Hok. cbn [outcome_of world_of events_of].
        set (w1 := world_of (mkdir_parents r up true w)) in *.
        assert (fs_get (fs w1) p = None) as Hp1.
        { rewrite <- Hp. apply fs_get_ext. unfold w1. rewrite sound_mkdir_parents.
          apply replay_other. eapply Forall_impl; [apply emits_mkdir_parents |].
          intros [] H; try contradiction. destruct H as [_ Hlen].
          unfold spares. simpl. intros Hin. apply list_elem_of_singleton in Hin. subst p0.
          unfold p in Hlen. cbn [parts] in Hlen. rewrite length_rev in Hlen. simpl in Hlen. lia. }
        destruct (mkdir_plain_ok p w1) as (evs & Hrun & _ & Hdone).
        { by rewrite Hpar. }
        { intros d. rewrite Hp1. discriminate. }
        rewrite Hrun. cbn [outcome_of world_of events_of fs]. by split.
Qed.

End Mkdir.

(** ** A run that completes *)

Section Completes.

Variable E : env.
Variables vol img : string.
Variable out : Path.

Let raw : Path := Pathlib.joinpath out "raw".

Lemma parent_raw : Pathlib.parent raw = out.
Proof.
  unfold raw. rewrite joinpath_raw. unfold Pathlib.parent. cbn [root parts].
  rewrite removelast_last. by destruct out.
Qed.

Lemma parent_target (plg : string) :
  Text.contains_char "/" plg = false -> Pathlib.parent (target_of out plg) = raw.
Proof.
  intros Hp. rewrite (target_of_plain _ _ Hp). unfold raw. rewrite joinpath_raw.
  unfold Pathlib.parent. cbn [root parts]. f_equal.
  change (parts out ++ ["raw"; safe_name plg +:+ ".txt"])
    with (parts out ++ ["raw"] ++ [safe_name plg +:+ ".txt"]).
  by rewrite app_assoc, removelast_last.
Qed.

Lemma target_length (plg : string) :
  Text.contains_char "/" plg = false ->
  length (parts (target_of out plg)) = S (S (length (parts out))).
Proof.
  intros Hp. rewrite (target_of_plain _ _ Hp). cbn [parts]. rewrite length_app. simpl. lia.
Qed.

Lemma raw_length : length (parts raw) = S (length (parts out)).
Proof. unfold raw. rewrite joinpath_raw. cbn [parts]. rewrite length_app. simpl. lia. Qed.

Lemma index_length : length (parts (index_of out)) = S (length (parts out)).
Proof. rewrite index_of_parts. cbn [parts]. rewrite length_app. simpl. lia. Qed.

Lemma raw_not_index : raw <> index_of out.
Proof.
  unfold raw. rewrite joinpath_raw, index_of_parts. intros [= H].
  by apply app_inj_tail in H as [_ [=]].
Qed.

Lemma mkdir_event_spares (n : nat) (q : Path) (ev : event) :
  (n < length (parts q))%nat -> mkdir_event (root out) n ev -> spares q ev.
Proof.
  intros Hq. destruct ev as [| p | | |]; try contradiction. intros [_ Hlen].
  unfold spares. simpl. intros Hin. apply list_elem_of_singleton in Hin. subst p. lia.
Qed.

Lemma loop_event_spares (plgs : list string) (q : Path) (ev : event) :
  (forall plg, plg ∈ plgs -> target_of out plg <> q) ->
  loop_event out plgs ev -> spares q ev.
Proof.
  intros Hq. unfold spares.
  destruct ev as [argv o e r|p|p|p data|[] line]; simpl; try contradiction.
  - intros (plg & Hin & -> & ->). unfold redirect_targets. rewrite decide_True by reflexivity.
    intros H. apply list_elem_of_singleton in H. by apply (Hq plg Hin).
  - intros (plg & Hin & ->) H. apply list_elem_of_singleton in H. by apply (Hq plg Hin).
  - intros _ H. by apply elem_of_nil in H.
Qed.

(** On a ready file system where the raw directory is there and every
    child starts, the loop completes, whatever the children return. *)
Lemma for_plugins_completes (plgs summary : list string) (w : world) :
  fs_get (fs w) raw = Some Dir ->
  Forall (fun plg => Text.contains_char "/" plg = false) plgs ->
  Forall (fun plg => fs_get (fs w) (target_of out plg) <> Some Dir) plgs ->
  children_start E (clock w) vol ->
  exists summary', outcome_of (for_plugins E vol img out plgs summary w) = Ok summary'.
Proof.
  revert summary w. induction plgs as [|plg rest IH]; intros summary w Hraw Hplain Htargets Hstart.
  - by exists summary.
  - apply Forall_cons in Hplain as [Hp Hplain]. apply Forall_cons in Htargets as [Ht Htargets].
    set (t := target_of out plg) in *.
    assert (writable (fs w) t) as Hw.
    { unfold writable. destruct (fs_get (fs w) t) as [[|c]|]; [by apply Ht | exact I |].
      unfold t. by rewrite (parent_target _ Hp). }
    rewrite for_plugins_cons. fold t.
    rewrite (run_plugin_run E vol img plg t None w Hw).
    change (plugin_argv vol img plg None) with (vol :: "-f" :: [img; plg]).
    destruct (Hstart (clock w) [img; plg] (le_n _)) as (rc & output & ->).
    cbn [outcome_of world_of events_of].
    assert (parts t <> []) as Hparts.
    { intros H. pose proof (target_length plg Hp) as Hl. fold t in Hl. rewrite H in Hl.
      discriminate Hl. }
    destruct (IH (summary ++ [summary_line t])
                 {| fs := <[t := File (combined output)]> (fs w); clock := S (clock w) |})
      as [summary' Hok].
    + cbn [fs]. rewrite fs_get_insert_ne; [exact Hraw |].
      intros H. apply (f_equal (fun p => length (parts p))) in H.
      unfold t in H. rewrite (target_length _ Hp), raw_length in H. lia.
    + exact Hplain.
    + cbn [fs]. eapply Forall_impl; [exact Htargets |]. intros plg' Hd. cbn beta in Hd.
      destruct (decide (t = target_of out plg')) as [<-|Hne].
      * rewrite fs_get_insert_eq by exact Hparts. discriminate.
      * by rewrite fs_get_insert_ne.
    + intros k rest' Hk. apply Hstart. cbn [clock] in Hk. lia.
    + by exists summary'.
Qed.

End Completes.

(** ** The shape of a run *)

Section Shape.

Variable E : env.
Variable args : Namespace.
Variable vol : string.

Let out : Path := Pathlib.of_string (outdir args).
Let head : list string :=
  summary_head (env_strftime E "%Y%m%d-%H%M%S") (file args) vol (plugins args).

Lemma emits_mkdir_out : emits (setup_event out) (mkdir out true true).
Proof.
  unfold mkdir. eapply emits_impl; [| apply emits_mkdir_parents].
  intros [] H; try contradiction. destruct H as [_ H]. left. by rewrite length_rev in H.
Qed.

Lemma emits_mkdir_raw :
  emits (setup_event out) (mkdir (Pathlib.joinpath out "raw") false true).
Proof.
  unfold mkdir. eapply emits_impl; [| apply emits_mkdir_plain]. intros ev ->. by right.
Qed.

(** Up to the end of the loop, a run makes directories, and then runs
    plugins; when it gets to the end of the loop it has run them all. *)
Lemma collect_shape (w : world) :
  exists setup loop,
    events_of (collect E args vol w) = setup ++ loop /\
    Forall (setup_event out) setup /\
    Forall (loop_event out (plugins args)) loop /\
    forall summary,
      outcome_of (collect E args vol w) = Ok summary ->
      summary = head ++ summary_lines out (plugins args) /\
      loop = loop_events E vol (file args) out (plugins args) (clock w).
Proof.
  unfold collect. fold out. fold head. unfold mbind, M_bind, bind.
  pose proof (emits_mkdir_out w) as H1.
  pose proof (keeps_clock_mkdir out true true w) as C1.
  destruct (outcome_of (mkdir out true true w)); cbn [outcome_of world_of events_of].
  2, 3: exists (events_of (mkdir out true true w)), [];
        rewrite app_nil_r; repeat split; try assumption; try constructor; discriminate.
  set (w1 := world_of (mkdir out true true w)) in *.
  pose proof (emits_mkdir_raw w1) as H2.
  pose proof (keeps_clock_mkdir (Pathlib.joinpath out "raw") false true w1) as C2.
  set (r2 := mkdir (Pathlib.joinpath out "raw") false true w1) in *.
  assert (Forall (setup_event out) (events_of (mkdir out true true w) ++ events_of r2)) as H12.
  { apply Forall_app. by split. }
  destruct (outcome_of r2); cbn [outcome_of world_of events_of].
  2, 3: exists (events_of (mkdir out true true w) ++ events_of r2), [];
        rewrite app_nil_r; repeat split; try assumption; try constructor; discriminate.
  set (w2 := world_of r2) in *.
  exists (events_of (mkdir out true true w) ++ events_of r2),
         (events_of (for_plugins E vol (file args) out (plugins args) head w2)).
  split; [by rewrite app_assoc |]. split; [exact H12 |].
  split; [apply emits_for_plugins |].
  intros summary Hok. destruct (for_plugins_Ok _ _ _ _ _ _ _ _ Hok) as (-> & Hev & _).
  rewrite Hev, C2, C1. split; [| reflexivity].
  unfold summary_lines. by rewrite <- list_fmap_compose.
Qed.

Lemma report_run (summary : list string) (w : world) :
  writable (fs w) (index_of out) ->
  report args summary w =
  Run (Ok tt)
      {| fs := <[index_of out := File (index_text summary)]> (fs w); clock := clock w |}
      [EvWriteText (index_of out) (index_text summary); EvPrint Stdout (saved_message out)].
Proof.
  intros Hw. unfold report, write_text, mbind, M_bind, bind. fold out.
  rewrite (create_file_ok _ _ _ _ Hw). reflexivity.
Qed.

Lemma report_blocked (summary : list string) (w : world) :
  ~ writable (fs w) (index_of out) ->
  exists e, report args summary w = Run (Raise e) w [].
Proof.
  intros Hw. unfold report, write_text, mbind, M_bind, bind. fold out.
  destruct (create_file_blocked _ (index_text summary)
              (EvWriteText (index_of out) (index_text summary)) w Hw) as [e ->].
  by exists e.
Qed.

(** The whole of what [main] does once the tool is known: directories,
    plugins, and then, only if the loop got to its end, the index and the
    closing line. *)
Lemma triage_shape (w : world) :
  let r := triage E args vol w in
  exists setup loop post,
    events_of r = setup ++ loop ++ post /\
    Forall (setup_event out) setup /\
    Forall (loop_event out (plugins args)) loop /\
    ((outcome_of r = Ok tt /\
      loop = loop_events E vol (file args) out (plugins args) (clock w) /\
      post = [EvWriteText (index_of out) (index_text (head ++ summary_lines out (plugins args)));
              EvPrint Stdout (saved_message out)] /\
      fs (world_of r) !! index_of out
      = Some (File (index_text (head ++ summary_lines out (plugins args)))))
     \/ (outcome_of r <> Ok tt /\ post = [])).
Proof.
  intros r. subst r. rewrite triage_split.
  destruct (collect_shape w) as (setup & loop & Hev & Hsetup & Hloop & Hok).
  unfold mbind, M_bind, bind.
  destruct (outcome_of (collect E args vol w)) as [summary| |] eqn:Hc;
    cbn [outcome_of world_of events_of].
  - destruct (Hok summary eq_refl) as [-> ->].
    set (w3 := world_of (collect E args vol w)).
    destruct (decide (writable (fs w3) (index_of out))) as [Hw|Hw].
    + rewrite (report_run _ _ Hw). cbn [outcome_of world_of events_of fs].
      eexists setup, _, _. split; [by rewrite Hev, <- app_assoc |].
      split; [exact Hsetup |]. split; [exact Hloop |]. left.
      repeat split; try reflexivity. apply lookup_insert_eq.
    + destruct (report_blocked (head ++ summary_lines out (plugins args)) w3 Hw) as [e ->].
      cbn [outcome_of world_of events_of].
      exists setup, (loop_events E vol (file args) out (plugins args) (clock w)), [].
      split; [by rewrite Hev, !app_nil_r |].
      split; [exact Hsetup |]. split; [exact Hloop |]. right. by split.
  - exists setup, loop, []. rewrite app_nil_r. repeat split; try assumption. by right.
  - exists setup, loop, []. rewrite app_nil_r. repeat split; try assumption. by right.
Qed.

End Shape.

(** ** The trace tells the file system *)

Section Sound.

Variable E : env.

Lemma sound_probe (c : string) : sound (probe E c).
Proof.
  apply sound_try_FileNotFoundError; [| apply sound_ret].
  apply sound_bind; [apply sound_subprocess_run | intros r; apply sound_ret].
Qed.

Lemma sound_find_vol_in (cs : list string) : sound (find_vol_in E cs).
Proof.
  induction cs as [|c cs IH]; [apply sound_ret |].
  cbn [find_vol_in]. apply sound_bind; [apply sound_probe |].
  intros [v|]; [apply sound_ret | exact IH].
Qed.

Lemma sound_run_plugin (volcmd img plugin : string) (outpath : Path)
    (kargs : option (list string)) :
  sound (run_plugin E volcmd img plugin outpath kargs).
Proof.
  unfold run_plugin. apply sound_bind; [apply sound_open_w | intros _].
  apply sound_bind; [apply sound_subprocess_run | intros _; apply sound_ret].
Qed.

Lemma sound_for_plugins (vol img : string) (out : Path) (plgs summary : list string) :
  sound (for_plugins E vol img out plgs summary).
Proof.
  revert summary. induction plgs as [|plg rest IH]; intros summary; [apply sound_ret |].
  cbn [for_plugins]. apply sound_bind; [apply sound_print | intros _].
  apply sound_bind; [apply sound_run_plugin | intros _; apply IH].
Qed.

Lemma sound_triage (args : Namespace) (vol : string) : sound (triage E args vol).
Proof.
  unfold triage. apply sound_bind; [apply sound_mkdir | intros _].
  apply sound_bind; [apply sound_mkdir | intros _].
  apply sound_bind; [apply sound_for_plugins | intros summary].
  apply sound_bind; [apply sound_write_text | intros _; apply sound_print].
Qed.

(** Replaying the events of a run on the file system it started from gives
    the file system it ended with. *)
Lemma sound_main (argv : CommandLine) : sound (main E argv).
Proof.
  unfold main. apply sound_bind; [apply sound_find_vol_in | intros vol].
  destruct (negb (truthy_str vol)); [| apply sound_triage].
  apply sound_bind; [apply sound_print | intros _; apply sound_sys_exit].
Qed.

End Sound.

Section TriageCompletes.

Variable E : env.
Variable args : Namespace.
Variable vol : string.

Let out : Path := Pathlib.of_string (outdir args).
Let raw : Path := Pathlib.joinpath out "raw".
Let idx : Path := index_of out.

Lemma parent_index : Pathlib.parent idx = out.
Proof.
  unfold idx. rewrite index_of_parts. unfold Pathlib.parent. cbn [root parts].
  rewrite removelast_last. by destruct out.
Qed.

Lemma setup_event_spares (q : Path) (ev : event) :
  (length (parts out) < length (parts q))%nat -> q <> raw ->
  setup_event out ev -> spares q ev.
Proof.
  intros Hlen Hne. destruct ev as [|p| | |]; try contradiction.
  unfold spares. simpl. intros Hp Hin. apply list_elem_of_singleton in Hin. subst p.
  destruct Hp as [Hp|Hp]; [lia | by apply Hne].
Qed.

Lemma loop_event_spares_shallow (q : Path) (ev : event) :
  Forall (fun plg => Text.contains_char "/" plg = false) (plugins args) ->
  (length (parts q) <= S (length (parts out)))%nat ->
  loop_event out (plugins args) ev -> spares q ev.
Proof.
  intros Hplain Hlen. apply loop_event_spares. intros plg Hin Heq.
  rewrite Forall_forall in Hplain. pose proof (target_length out plg (Hplain plg Hin)) as Hl.
  rewrite Heq in Hl. lia.
Qed.

(** On a ready file system, with every child starting, [main] gets from
    the case directory to the end of the run. *)
Lemma triage_completes (w : world) :
  ready (fs w) out (plugins args) ->
  children_start E (clock w) vol ->
  outcome_of (triage E args vol w) = Ok tt.
Proof.
  intros [Hdirs Hraw Hplain Htargets Hindex] Hstart.
  (* the case directory *)
  destruct (mkdir_parents_ok (root out) (rev (parts out)) w) as [Hok1 Hdir1].
  { intros k c. rewrite skipn_rev, rev_involutive. apply Hdirs. }
  rewrite rev_involutive in Hdir1.
  pose proof (emits_mkdir_parents (root out) (rev (parts out)) true w) as E1.
  rewrite length_rev in E1.
  change (mkdir_parents (root out) (rev (parts out)) true) with (mkdir out true true) in *.
  replace {| root := root out; parts := parts out |} with out in Hdir1 by (by destruct out).
  pose proof (sound_mkdir out true true w) as S1.
  pose proof (keeps_clock_mkdir out true true w) as C1.
  set (w1 := world_of (mkdir out true true w)) in *.
  assert (forall q, (length (parts out) < length (parts q))%nat -> fs w1 !! q = fs w !! q)
    as Hsame1.
  { intros q Hlen. rewrite S1. apply replay_other.
    eapply Forall_impl; [exact E1 |]. intros ev. by apply mkdir_event_spares. }
  (* the raw directory *)
  destruct (mkdir_plain_ok raw w1) as (ev2 & Hrun2 & Hev2 & Hdir2).
  { unfold raw. by rewrite parent_raw. }
  { intros c. rewrite (fs_get_ext _ (fs w) raw); [apply Hraw |].
    apply Hsame1. unfold raw. rewrite raw_length. lia. }
  change (mkdir_plain raw true) with (mkdir raw false true) in Hrun2.
  set (w2 := {| fs := replay ev2 (fs w1); clock := clock w1 |}) in *.
  assert (forall q, q <> raw -> fs w2 !! q = fs w1 !! q) as Hsame2.
  { intros q Hq. unfold w2. cbn [fs]. destruct Hev2 as [-> | ->]; [reflexivity |].
    simpl. by apply lookup_insert_ne. }
  (* the loop *)
  set (head := summary_head (env_strftime E "%Y%m%d-%H%M%S") (file args) vol (plugins args)).
  destruct (for_plugins_completes E vol (file args) out (plugins args) head w2)
    as [summary Hok3].
  { exact Hdir2. }
  { exact Hplain. }
  { rewrite Forall_forall in Hplain, Htargets |- *. intros plg Hin.
    pose proof (target_length out plg (Hplain plg Hin)) as Hl.
    rewrite (fs_get_ext _ (fs w) (target_of out plg)); [by apply Htargets |].
    rewrite Hsame2, Hsame1; [reflexivity | lia |].
    intros H. rewrite H in Hl. unfold raw in Hl. rewrite raw_length in Hl. lia. }
  { intros k rest Hk. apply Hstart. unfold w2 in Hk. cbn [clock] in Hk. lia. }
  pose proof (sound_for_plugins E vol (file args) out (plugins args) head w2) as S3.
  pose proof (emits_for_plugins E vol (file args) out (plugins args) head w2) as E3.
  set (r3 := for_plugins E vol (file args) out (plugins args) head w2) in *.
  (* the index can be written *)
  assert (writable (fs (world_of r3)) idx) as Hw.
  { assert (fs (world_of r3) !! idx = fs w !! idx) as Hidx.
    { rewrite S3, replay_other.
      - rewrite Hsame2, Hsame1; [reflexivity | |].
        + unfold idx. rewrite index_length. lia.
        + unfold idx, raw. intros H. symmetry in H. by apply (raw_not_index out) in H.
      - eapply Forall_impl; [exact E3 |]. intros ev. apply loop_event_spares.
        intros plg _. apply target_not_index. }
    assert (fs_get (fs (world_of r3)) out = Some Dir) as Hout.
    { rewrite <- Hdir1. apply fs_get_ext. rewrite S3, replay_other.
      - apply Hsame2. intros H. apply (f_equal (fun p => length (parts p))) in H.
        unfold raw in H. rewrite raw_length in H. lia.
      - eapply Forall_impl; [exact E3 |]. intros ev.
        apply loop_event_spares_shallow; [exact Hplain | lia]. }
    unfold writable. rewrite (fs_get_ext _ (fs w) idx Hidx).
    destruct (fs_get (fs w) idx) as [[|c]|] eqn:Hi; [by apply Hindex | exact I |].
    by rewrite parent_index. }
  (* all together *)
  rewrite triage_split. unfold mbind, M_bind, bind.
  assert (collect E args vol w = Run (Ok summary) (world_of r3)
            (events_of (mkdir out true true w) ++ ev2 ++ events_of r3)) as Hcollect.
  { unfold collect, mbind, M_bind, bind. fold out. rewrite Hok1. fold w1. fold raw.
    rewrite Hrun2. cbn [outcome_of world_of events_of]. fold w2. fold head. fold r3.
    rewrite Hok3. reflexivity. }
  rewrite Hcollect. cbn [outcome_of world_of events_of].
  rewrite (report_run args summary _ Hw). reflexivity.
Qed.

End TriageCompletes.

(** ** Files stay *)

Section FilesStay.

Lemma append_file_keeps (p t : Path) (data : string) (f : gmap Path node) :
  is_file f t -> is_file (append_file p data f) t.
Proof.
  intros [c Hc]. unfold append_file, is_file.
  destruct (f !! p) as [[|old]|] eqn:Hp; try by exists c.
  destruct (decide (p = t)) as [->|Hne].
  - exists (old +:+ data). apply lookup_insert_eq.
  - exists c. by rewrite lookup_insert_ne.
Qed.

Lemma deliver_keeps (o e : redirect) (output : list (stream * string)) (t : Path)
    (f : gmap Path node) :
  is_file f t -> is_file (deliver o e output f) t.
Proof.
  unfold deliver. generalize (redirect_targets o e) as ps. intros ps. revert f.
  induction ps as [|p ps IH]; intros f Hf; [exact Hf |].
  simpl. apply IH. by apply append_file_keeps.
Qed.

Lemma insert_file_keeps (p t : Path) (data : string) (f : gmap Path node) :
  is_file f t -> is_file (<[p := File data]> f) t.
Proof.
  intros [c Hc]. destruct (decide (p = t)) as [->|Hne].
  - exists data. apply lookup_insert_eq.
  - exists c. by rewrite lookup_insert_ne.
Qed.

Lemma apply_event_keeps (ev : event) (t : Path) (f : gmap Path node) :
  makes_no_dir ev -> is_file f t -> is_file (apply_event ev f) t.
Proof.
  destruct ev as [argv o e [x|rc output]|p|p|p data|s line]; simpl; try tauto; intros _.
  - apply deliver_keeps.
  - apply insert_file_keeps.
  - apply insert_file_keeps.
Qed.

Lemma opened_app (evs evs' : list event) : opened (evs ++ evs') = opened evs ++ opened evs'.
Proof. unfold opened. apply omap_app. Qed.

Lemma opened_nothing (evs : list event) : Forall opens_nothing evs -> opened evs = [].
Proof.
  induction 1 as [|ev evs Hev _ IH]; [reflexivity |].
  unfold opened in *. destruct ev; simpl in *; try contradiction; exact IH.
Qed.

(** While no directory is made, a file that was opened is still there. *)
Lemma replay_keeps_opened (evs : list event) (f : gmap Path node) (t : Path) :
  Forall makes_no_dir evs -> t ∈ opened evs -> is_file (replay evs f) t.
Proof.
  induction evs as [|ev evs IH] using rev_ind; intros Hno Hin.
  - by apply elem_of_nil in Hin.
  - apply Forall_app in Hno as [Hno Hev]. apply Forall_cons in Hev as [Hev _].
    rewrite replay_app. change (replay [ev] ?g) with (apply_event ev g).
    rewrite opened_app in Hin. apply elem_of_app in Hin as [Hin|Hin].
    + apply apply_event_keeps; [exact Hev | by apply IH].
    + destruct ev as [| |p|p data|]; unfold opened in Hin; simpl in Hin;
        try (by apply elem_of_nil in Hin); apply list_elem_of_singleton in Hin; subst t;
        eexists; apply lookup_insert_eq.
Qed.

Lemma loop_event_no_dir (out : Path) (plgs : list string) (ev : event) :
  loop_event out plgs ev -> makes_no_dir ev.
Proof. destruct ev as [| | | |[]]; simpl; tauto. Qed.

Lemma setup_event_opens_nothing (out : Path) (ev : event) :
  setup_event out ev -> opens_nothing ev.
Proof. destruct ev; simpl; tauto. Qed.

Lemma probe_events_open_nothing (ans : list (string * spawn_result)) :
  Forall opens_nothing (probe_event <$> ans).
Proof. induction ans; constructor; [exact I | assumption]. Qed.

Lemma probe_events_spare (q : Path) (ans : list (string * spawn_result)) :
  Forall (spares q) (probe_event <$> ans).
Proof.
  induction ans; constructor; [| assumption].
  unfold spares. simpl. apply not_elem_of_nil.
Qed.

End FilesStay.

(** ** The whole run *)

Section WholeRun.

Variable E : env.
Variable argv : CommandLine.

Let args : Namespace := parse_args argv.
Let out : Path := Pathlib.of_string (outdir args).

(** A run of [main] that completes, the tool being [vol]: its events are
    the probes, the making of the directories, the loop over all the
    plugins, the writing of the index and the closing line. *)
Lemma main_Ok_shape (w : world) (vol : string) :
  outcome_of (find_vol E w) = Ok (Some vol) ->
  outcome_of (main E argv w) = Ok tt ->
  exists setup,
    events_of (main E argv w) =
      events_of (find_vol E w) ++ setup
      ++ loop_events E vol (file args) out (plugins args) (clock (world_of (find_vol E w)))
      ++ [EvWriteText (index_of out) (index_document E args vol);
          EvPrint Stdout (saved_message out)] /\
    Forall (setup_event out) setup /\
    fs (world_of (main E argv w)) !! index_of out = Some (File (index_document E args vol)).
Proof.
  rewrite find_vol_run. cbn [outcome_of world_of events_of clock].
  intros Hloc. pose proof (main_found E argv w vol Hloc) as Hmain. cbn zeta in Hmain.
  fold args in Hmain. rewrite Hmain. cbn [outcome_of world_of events_of]. intros Hok.
  destruct (triage_shape E args vol
              {| fs := fs w; clock := clock w + tried (answers E (clock w) CANDIDATE_CMDS) |})
    as (setup & loop & post & Hev & Hsetup & _ & Hcases).
  destruct Hcases as [(_ & -> & -> & Hidx)|[Hne _]]; [| contradiction].
  exists setup. rewrite Hev. repeat split; assumption.
Qed.

(** [main], when the tool is located, the file system is ready and every
    child of the loop starts: the run completes; its events are the probes,
    the making of the directories, the loop over all the plugins, the
    writing of the index and the closing line. *)
Lemma main_run_ready (w : world) (vol : string) :
  outcome_of (find_vol E w) = Ok (Some vol) ->
  ready (fs w) out (plugins args) ->
  children_start E (clock (world_of (find_vol E w))) vol ->
  exists setup,
    outcome_of (main E argv w) = Ok tt /\
    events_of (main E argv w) =
      events_of (find_vol E w) ++ setup
      ++ loop_events E vol (file args) out (plugins args) (clock (world_of (find_vol E w)))
      ++ [EvWriteText (index_of out) (index_document E args vol);
          EvPrint Stdout (saved_message out)] /\
    Forall (setup_event out) setup /\
    fs (world_of (main E argv w)) !! index_of out = Some (File (index_document E args vol)).
Proof.
  rewrite find_vol_run. cbn [outcome_of world_of events_of clock].
  intros Hloc Hready Hstart.
  pose proof (main_found E argv w vol Hloc) as Hmain. cbn zeta in Hmain.
  fold args in Hmain.
  set (w1 := {| fs := fs w; clock := clock w + tried (answers E (clock w) CANDIDATE_CMDS) |}) in *.
  pose proof (triage_completes E args vol w1 Hready Hstart) as Hok.
  destruct (triage_shape E args vol w1) as (setup & loop & post & Hev & Hsetup & _ & Hcases).
  destruct Hcases as [(_ & -> & -> & Hidx)|[Hne _]]; [| contradiction].
  exists setup. rewrite Hmain. cbn [outcome_of world_of events_of].
  rewrite Hev. repeat split; assumption.
Qed.

End WholeRun.

(** ** Output file names *)

Lemma fs_safe_txt (x : string) :
  Text.contains_char "/" x = false ->
  Text.contains_char "000" x = false ->
  fs_safe (x +:+ ".txt") = true.
Proof.
  intros Hs Hz. unfold fs_safe. rewrite !contains_char_append, Hs, Hz. simpl.
  pose proof (keep_txt x) as Hk. unfold Pathlib.keep_part in Hk.
  apply andb_true_iff in Hk as [-> ->]. simpl.
  assert (x +:+ ".txt" <> "..") as Hdd.
  { intros H. apply (f_equal String.length) in H. rewrite length_append in H. simpl in H. lia. }
  apply String.eqb_neq in Hdd. by rewrite Hdd.
Qed.




(** ** One output file per entry *)

Lemma target_plain_inj (out : Path) (s t : string) :
  {| root := root out; parts := parts out ++ ["raw"; s +:+ ".txt"] |}
  = {| root := root out; parts := parts out ++ ["raw"; t +:+ ".txt"] |} -> s = t.
Proof.
  intros [= H]. apply app_inv_head in H. injection H as H. by apply append_inj_l in H.
Qed.

Lemma targets_plain (out : Path) (plgs : list string) :
  Forall (fun plg => Text.contains_char "/" plg = false) plgs ->
  target_of out <$> plgs
  = (fun s => {| root := root out; parts := parts out ++ ["raw"; s +:+ ".txt"] |})
      <$> (safe_name <$> plgs).
Proof.
  intros Hplain. rewrite <- list_fmap_compose. apply Forall_fmap_ext.
  eapply Forall_impl; [exact Hplain |]. intros plg Hp. by apply target_of_plain.
Qed.

Lemma loop_events_no_dir (E : env) (vol img : string) (out : Path) (plgs : list string)
    (n : nat) :
  Forall makes_no_dir (loop_events E vol img out plgs n).
Proof.
  revert n. induction plgs as [|plg rest IH]; intros n; [constructor |].
  cbn [loop_events]. repeat constructor. apply IH.
Qed.

Section RunFiles.

Variable E : env.
Variable argv : CommandLine.
Variable w : world.
Variable vol : string.

Hypothesis Hlocated : outcome_of (find_vol E w) = Ok (Some vol).
Hypothesis Hok : outcome_of (main E argv w) = Ok tt.

Lemma probes_of_find_vol :
  exists ans, events_of (find_vol E w) = probe_event <$> ans.
Proof. rewrite find_vol_run. by eexists. Qed.

Lemma opened_of_run :
  opened (events_of (main E argv w)) =
  (target_of (case_dir argv) <$> plugins (parse_args argv)) ++ [index_of (case_dir argv)].
Proof.
  destruct (main_Ok_shape E argv w vol Hlocated Hok) as (setup & -> & Hsetup & _).
  destruct probes_of_find_vol as [ans ->].
  rewrite !opened_app, opened_loop_events.
  rewrite (opened_nothing _ (probe_events_open_nothing ans)).
  rewrite (opened_nothing setup); [reflexivity |].
  eapply Forall_impl; [exact Hsetup |]. apply setup_event_opens_nothing.
Qed.

Lemma captured_runs_app (evs evs' : list event) :
  captured_runs (evs ++ evs') = captured_runs evs ++ captured_runs evs'.
Proof. unfold captured_runs. apply omap_app. Qed.

Lemma captured_runs_probes (ans : list (string * spawn_result)) :
  captured_runs (probe_event <$> ans) = [].
Proof. induction ans as [|a ans IH]; [reflexivity | exact IH]. Qed.

Lemma captured_runs_setup (out : Path) (setup : list event) :
  Forall (setup_event out) setup -> captured_runs setup = [].
Proof.
  induction 1 as [|ev evs Hev _ IH]; [reflexivity |].
  destruct ev; try contradiction. exact IH.
Qed.

Lemma files_of_run :
  Forall (is_file (fs (world_of (main E argv w))))
         (opened (events_of (main E argv w))).
Proof.
  rewrite sound_main.
  destruct (main_Ok_shape E argv w vol Hlocated Hok) as (setup & -> & Hsetup & _).
  destruct probes_of_find_vol as [ans ->].
  rewrite (app_assoc _ setup), replay_app, opened_app.
  rewrite (opened_nothing (_ ++ setup)).
  2: { apply Forall_app. split; [apply probe_events_open_nothing |].
       eapply Forall_impl; [exact Hsetup |]. apply setup_event_opens_nothing. }
  rewrite app_nil_l, Forall_forall. intros t Ht. apply replay_keeps_opened; [| exact Ht].
  apply Forall_app. split; [apply loop_events_no_dir | repeat constructor].
Qed.

End RunFiles.


(** An empty file system is ready for any case directory and any plugin
    names without a slash. *)
Lemma ready_empty (out : Path) (plgs : list string) :
  Forall (fun plg => Text.contains_char "/" plg = false) plgs -> ready ∅ out plgs.
Proof.
  intros Hplain.
  assert (forall q c, fs_get ∅ q <> Some (File c)) as Hnofile.
  { intros q c. unfold fs_get. destruct (parts q); [discriminate |].
    rewrite lookup_empty. discriminate. }
  split; try (intros; apply Hnofile); try exact Hplain.
  - eapply Forall_impl; [exact Hplain |]. intros plg Hp. rewrite (target_of_plain _ _ Hp).
    unfold fs_get. cbn [parts]. destruct (parts out); simpl; rewrite lookup_empty; discriminate.
  - rewrite index_of_parts. unfold fs_get. cbn [parts].
    destruct (parts out); simpl; rewrite lookup_empty; discriminate.
Qed.

Lemma env_vol_py_starts (rc : Z) (n : nat) : children_start (env_vol_py rc) n "vol.py".
Proof. intros k rest _. by eexists _, _. Qed.



(** ** The index *)

(** the static block of hints, as it reaches the index *)
Example hints_text :
  hints =
"## Quick Review Hints
- pslist / pstree: odd parent-child pairs, short-lived procs, unusual names.
- netscan: unexpected outbound connections, high ports, shells with net.
- dlllist: unsigned or unusual DLL paths in user-writable dirs.
- cmdline: suspicious flags, base64 strings, LOLBins.
- malfind: injected code regions (follow up only in a lab environment).".
Proof. vm_compute. reflexivity. Qed.

(** C7.  In a run where the tool is located and that completes, whatever
    the children of the plugins returned or wrote: the last thing the run
    does to the file system, after the children of all the plugins have
    run, is to write INDEX.md in the case directory, replacing what was
    there; and the document is the header with the time stamp, the image,
    the tool and the list of the plugins, the heading of the outputs, one
    line per plugin with the path of its output file, in the order of the
    plugin list, an empty line, and the block of hints.  The run does
    complete when the file system is ready and the tool starts on every
    plugin. *)
Theorem index_lists_every_plugin (E : env) (argv : CommandLine) (w : world) (vol : string) :
  outcome_of (find_vol E w) = Ok (Some vol) ->
  let r := main E argv w in
  let args := parse_args argv in
  let out := case_dir argv in
  let doc :=
    Text.join Text.NL
      ([ "# Memory Forensics Triage — " +:+ env_strftime E "%Y%m%d-%H%M%S";
         "- Image: `" +:+ file args +:+ "`";
         "- Volatility: `" +:+ vol +:+ "`";
         "- Plugins: " +:+ Text.join ", " (plugins args);
         "";
         "## Outputs" ]
       ++ ((fun plg => "- `" +:+ Pathlib.to_string (target_of out plg) +:+ "`")
             <$> plugins args))
    +:+ Text.NL +:+ Text.NL +:+ hints +:+ Text.NL in
  (outcome_of r = Ok tt ->
   (exists pre,
      events_of r = pre ++ [EvWriteText (Pathlib.joinpath out "INDEX.md") doc;
                            EvPrint Stdout ("[✓] Case saved to: " +:+ Pathlib.to_string out)] /\
      captured_runs pre = (fun plg => [vol; "-f"; file args; plg]) <$> plugins args) /\
   fs (world_of r) !! Pathlib.joinpath out "INDEX.md" = Some (File doc)) /\
  (ready (fs w) out (plugins args) ->
   children_start E (clock (world_of (find_vol E w))) vol ->
   outcome_of r = Ok tt).
Proof.
  intros Hloc r args out doc. split.
  - intros Hok.
    destruct (main_Ok_shape E argv w vol Hloc Hok) as (setup & Hev & Hsetup & Hidx).
    split; [| exact Hidx].
    eexists. split.
    + subst r. rewrite Hev. rewrite !app_assoc. reflexivity.
    + destruct (probes_of_find_vol E w) as [ans ->].
      rewrite !captured_runs_app, captured_runs_probes, (captured_runs_setup _ _ Hsetup).
      apply captured_runs_loop_events.
  - intros Hready Hstart.
    by destruct (main_run_ready E argv w vol Hloc Hready Hstart) as (setup & Hok & _).
Qed.

Lemma index_lists_every_plugin_witness :
  let E := env_vol_py 1 in
  let argv := sample_argv_with ["windows.pslist"; "windows.netscan"] in
  let r := main E argv empty_world in
  outcome_of (find_vol E empty_world) = Ok (Some "vol.py") /\
  outcome_of r = Ok tt /\
  fs (world_of r) !! Pathlib.of_string "cases/CASE001/INDEX.md" =
  Some (File
"# Memory Forensics Triage — 20240101-120000
- Image: `mem.raw`
- Volatility: `vol.py`
- Plugins: windows.pslist, windows.netscan

## Outputs
- `cases/CASE001/raw/windows_pslist.txt`
- `cases/CASE001/raw/windows_netscan.txt`

## Quick Review Hints
- pslist / pstree: odd parent-child pairs, short-lived procs, unusual names.
- netscan: unexpected outbound connections, high ports, shells with net.
- dlllist: unsigned or unusual DLL paths in user-writable dirs.
- cmdline: suspicious flags, base64 strings, LOLBins.
- malfind: injected code regions (follow up only in a lab environment).
").
Proof.
  intros E argv r.
  assert (outcome_of (find_vol E empty_world) = Ok (Some "vol.py")) as Hloc by reflexivity.
  assert (ready (fs empty_world) (case_dir argv) ["windows.pslist"; "windows.netscan"])
    as Hready by (apply ready_empty; repeat constructor).
  destruct (index_lists_every_plugin E argv empty_world "vol.py" Hloc) as [Hdoc Hcompletes].
  pose proof (Hcompletes Hready (env_vol_py_starts 1 _)) as Hok.
  destruct (Hdoc Hok) as [_ Hidx].
  split; [exact Hloc |]. split; [exact Hok |]. exact Hidx.
Defined.

(** C8.  [python3 mf_triage.py -f mem.raw -o cases/CASE001], where the tool
    is located, the file system is ready and the tool starts on every
    plugin: the run completes; the files it opens for writing are the six
    output files of the default plugins under cases/CASE001/raw, in the
    order of the list, and then cases/CASE001/INDEX.md; all seven are there
    at the end; and the index lists the six paths. *)
Theorem default_run_scenario (E : env) (w : world) (vol : string) :
  outcome_of (find_vol E w) = Ok (Some vol) ->
  ready (fs w) (Pathlib.of_string "cases/CASE001") DEFAULT_PLUGINS ->
  children_start E (clock (world_of (find_vol E w))) vol ->
  let r := main E sample_argv w in
  outcome_of r = Ok tt /\
  Pathlib.to_string <$> opened (events_of r) =
    [ "cases/CASE001/raw/windows_pslist.txt";
      "cases/CASE001/raw/windows_pstree.txt";
      "cases/CASE001/raw/windows_netscan.txt";
      "cases/CASE001/raw/windows_dlllist.txt";
      "cases/CASE001/raw/windows_cmdline.txt";
      "cases/CASE001/raw/windows_malfind.txt";
      "cases/CASE001/INDEX.md" ] /\
  Forall (fun name => is_file (fs (world_of r)) (Pathlib.of_string name))
    [ "cases/CASE001/raw/windows_pslist.txt";
      "cases/CASE001/raw/windows_pstree.txt";
      "cases/CASE001/raw/windows_netscan.txt";
      "cases/CASE001/raw/windows_dlllist.txt";
      "cases/CASE001/raw/windows_cmdline.txt";
      "cases/CASE001/raw/windows_malfind.txt";
      "cases/CASE001/INDEX.md" ] /\
  fs (world_of r) !! Pathlib.of_string "cases/CASE001/INDEX.md" =
  Some (File
    (Text.join Text.NL
       [ "# Memory Forensics Triage — " +:+ env_strftime E "%Y%m%d-%H%M%S";
         "- Image: `mem.raw`";
         "- Volatility: `" +:+ vol +:+ "`";
         "- Plugins: windows.pslist, windows.pstree, windows.netscan, windows.dlllist, windows.cmdline, windows.malfind";
         "";
         "## Outputs";
         "- `cases/CASE001/raw/windows_pslist.txt`";
         "- `cases/CASE001/raw/windows_pstree.txt`";
         "- `cases/CASE001/raw/windows_netscan.txt`";
         "- `cases/CASE001/raw/windows_dlllist.txt`";
         "- `cases/CASE001/raw/windows_cmdline.txt`";
         "- `cases/CASE001/raw/windows_malfind.txt`" ]
     +:+ Text.NL +:+ Text.NL +:+ hints +:+ Text.NL)).
Proof.
  intros Hloc Hready Hstart r.
  destruct (main_run_ready E sample_argv w vol Hloc Hready Hstart)
    as (setup & Hok & _ & _ & Hidx).
  pose proof (opened_of_run E sample_argv w vol Hloc Hok) as Hopened.
  pose proof (files_of_run E sample_argv w vol Hloc Hok) as Hfiles.
  fold r in Hok, Hidx, Hopened, Hfiles.
  split; [exact Hok |]. rewrite Hopened in Hfiles |- *.
  split; [reflexivity |]. split; [| exact Hidx].
  rewrite Forall_forall in Hfiles. rewrite Forall_forall. intros name Hname.
  apply Hfiles. repeat (apply elem_of_cons in Hname as [->|Hname]; [set_solver |]).
  by apply elem_of_nil in Hname.
Qed.

Lemma default_run_scenario_witness :
  let r := main (env_vol_py 1) sample_argv empty_world in
  outcome_of (find_vol (env_vol_py 1) empty_world) = Ok (Some "vol.py") /\
  outcome_of r = Ok tt /\
  Pathlib.to_string <$> opened (events_of r) =
    [ "cases/CASE001/raw/windows_pslist.txt";
      "cases/CASE001/raw/windows_pstree.txt";
      "cases/CASE001/raw/windows_netscan.txt";
      "cases/CASE001/raw/windows_dlllist.txt";
      "cases/CASE001/raw/windows_cmdline.txt";
      "cases/CASE001/raw/windows_malfind.txt";
      "cases/CASE001/INDEX.md" ] /\
  length (regular_files (fs (world_of r))) = 7%nat.
Proof.
  intros r.
  assert (outcome_of (find_vol (env_vol_py 1) empty_world) = Ok (Some "vol.py")) as Hloc
    by reflexivity.
  assert (ready (fs empty_world) (Pathlib.of_string "cases/CASE001") DEFAULT_PLUGINS)
    as Hready by (apply ready_empty; repeat constructor).
  destruct (default_run_scenario (env_vol_py 1) empty_world "vol.py" Hloc Hready
              (env_vol_py_starts 1 _)) as (Hok & Hopened & _).
  split; [exact Hloc |]. split; [exact Hok |]. split; [exact Hopened |].
  vm_compute. reflexivity.
Defined.

(** ** Return codes do not matter to the loop *)

Section ReturnCodes.

Lemma forget_rc_cases (r r' : spawn_result) :
  forget_rc r = forget_rc r' ->
  (exists e, r = Failed e /\ r' = Failed e) \/
  (exists rc rc' output, r = Started rc output /\ r' = Started rc' output).
Proof.
  destruct r as [e|rc output], r' as [e'|rc' output']; simpl; intros [=]; subst.
  - left. by exists e'.
  - right. by exists rc, rc', output'.
Qed.

Lemma same_but_rc_refl {A} (r : run A) : same_but_rc r r.
Proof. by repeat split. Qed.

Variables E E' : env.
Variable n : nat.
Hypothesis Hagree : agree_from n E E'.

Lemma run_plugin_agree (volcmd img plugin : string) (outpath : Path)
    (kargs : option (list string)) (w : world) :
  (n <= clock w)%nat ->
  same_but_rc (run_plugin E volcmd img plugin outpath kargs w)
              (run_plugin E' volcmd img plugin outpath kargs w).
Proof.
  intros Hn. destruct (decide (writable (fs w) outpath)) as [Hw|Hw].
  - rewrite !(run_plugin_run _ volcmd img plugin outpath kargs w Hw).
    destruct Hagree as [_ Hrc].
    destruct (forget_rc_cases _ _ (Hrc (clock w) (plugin_argv volcmd img plugin kargs) Hn))
      as [(e & -> & ->)|(rc & rc' & output & -> & ->)]; by repeat split.
  - destruct (create_file_blocked outpath "" (EvOpenW outpath) w Hw) as [e He].
    unfold run_plugin, open_w, mbind, M_bind, bind. rewrite He. apply same_but_rc_refl.
Qed.

(** The loop does the same whatever the children return: same outcome,
    same world, same events but for the codes they record. *)
Lemma for_plugins_agree (vol img : string) (out : Path) (plgs summary : list string)
    (w : world) :
  (n <= clock w)%nat ->
  same_but_rc (for_plugins E vol img out plgs summary w)
              (for_plugins E' vol img out plgs summary w).
Proof.
  revert summary w. induction plgs as [|plg rest IH]; intros summary w Hn.
  - apply same_but_rc_refl.
  - rewrite !for_plugins_cons.
    destruct (run_plugin_agree vol img plg (target_of out plg) None w Hn) as (Ho & Hw & Hev).
    rewrite <- Ho, <- Hw.
    destruct (outcome_of (run_plugin E vol img plg (target_of out plg) None w)) eqn:Hr.
    + destruct (IH (summary ++ [summary_line (target_of out plg)])
                   (world_of (run_plugin E vol img plg (target_of out plg) None w)))
        as (Ho2 & Hw2 & Hev2).
      { destruct (decide (writable (fs w) (target_of out plg))) as [Hwr|Hwr].
        - rewrite (run_plugin_run E vol img plg _ None w Hwr). cbn [world_of clock]. lia.
        - destruct (run_plugin_blocked E vol img plg (target_of out plg) None w Hwr) as [e He].
          rewrite He in Hr. discriminate Hr. }
      repeat split; cbn [outcome_of world_of events_of]; [exact Ho2 | exact Hw2 |].
      rewrite !fmap_cons, !fmap_app. by rewrite Hev, Hev2.
    + repeat split. cbn [events_of]. rewrite !fmap_cons. by rewrite Hev.
    + repeat split. cbn [events_of]. rewrite !fmap_cons. by rewrite Hev.
Qed.

Lemma triage_agree (args : Namespace) (vol : string) (w : world) :
  (n <= clock w)%nat ->
  same_but_rc (triage E args vol w) (triage E' args vol w).
Proof.
  intros Hn. unfold same_but_rc, triage, mbind, M_bind, bind.
  destruct Hagree as [Htime _]. rewrite <- Htime.
  set (out := Pathlib.of_string (outdir args)).
  pose proof (keeps_clock_mkdir out true true w) as C1.
  destruct (outcome_of (mkdir out true true w)); cbn [outcome_of world_of events_of];
    try (by repeat split).
  set (w1 := world_of (mkdir out true true w)) in *.
  pose proof (keeps_clock_mkdir (Pathlib.joinpath out "raw") false true w1) as C2.
  destruct (outcome_of (mkdir (Pathlib.joinpath out "raw") false true w1));
    cbn [outcome_of world_of events_of]; try (by repeat split).
  set (w2 := world_of (mkdir (Pathlib.joinpath out "raw") false true w1)) in *.
  set (head := summary_head (env_strftime E "%Y%m%d-%H%M%S") (file args) vol (plugins args)).
  destruct (for_plugins_agree vol (file args) out (plugins args) head w2) as (Ho & Hw & Hev).
  { lia. }
  rewrite <- Ho, <- Hw.
  destruct (outcome_of (for_plugins E vol (file args) out (plugins args) head w2)) as [s| |];
    cbn [outcome_of world_of events_of].
  - destruct (outcome_of (write_text (index_of out) (index_text s) _));
      cbn [outcome_of world_of events_of]; repeat split;
      rewrite !fmap_app; by rewrite Hev.
  - repeat split. rewrite !fmap_app. by rewrite Hev.
  - repeat split. rewrite !fmap_app. by rewrite Hev.
Qed.

End ReturnCodes.

Lemma tried_positive (ans : list (string * spawn_result)) :
  ans <> [] -> (1 <= tried ans)%nat.
Proof.
  destruct ans as [|[c [e|rc output]] ans]; [contradiction | |]; intros _; simpl.
  - destruct e; lia.
  - destruct (acceptable rc); lia.
Qed.

(** Recoding the children that come after the probes does not change what
    the locator does. *)
Lemma find_vol_in_recode (n : nat) (f : nat -> Z -> Z) (E : env) (cs : list string)
    (w : world) :
  (clock w + tried (answers E (clock w) cs) <= n)%nat ->
  find_vol_in (recode n f E) cs w = find_vol_in E cs w.
Proof.
  revert w. induction cs as [|c cs IH]; intros w Hn; [reflexivity |].
  pose proof (tried_positive (answers E (clock w) (c :: cs)) ltac:(discriminate)) as Hpos.
  assert (env_spawn (recode n f E) (clock w) [c; "-h"] = env_spawn E (clock w) [c; "-h"]) as Heq.
  { simpl. destruct (Nat.ltb_spec (clock w) n); [reflexivity | lia]. }
  cbn [find_vol_in]. unfold mbind, M_bind, bind. rewrite !probe_run, Heq.
  cbn [outcome_of world_of events_of]. cbn [answers tried] in Hn.
  destruct (env_spawn E (clock w) [c; "-h"]) as [e|rc output].
  - destruct e; try reflexivity. cbn [outcome_of world_of events_of].
    rewrite IH; [reflexivity |]. cbn [clock]. lia.
  - destruct (acceptable rc); [reflexivity |]. cbn [outcome_of world_of events_of].
    rewrite IH; [reflexivity |]. cbn [clock]. lia.
Qed.

Lemma recode_agrees (n : nat) (f : nat -> Z -> Z) (E : env) : agree_from n E (recode n f E).
Proof.
  split; [reflexivity |]. intros k argv Hk. simpl.
  destruct (Nat.ltb_spec k n); [lia |]. by destruct (env_spawn E k argv).
Qed.



(** ** The index is written once, at the end *)

Lemma prefix_app_cases {A} (evs a b : list A) :
  evs `prefix_of` a ++ b ->
  evs `prefix_of` a \/ exists b', evs = a ++ b' /\ b' `prefix_of` b.
Proof.
  revert evs. induction a as [|x a IH]; intros evs H.
  - right. by exists evs.
  - destruct evs as [|y evs]; [left; apply prefix_nil |].
    simpl in H. pose proof (prefix_cons_inv_1 _ _ _ _ H) as ->.
    apply prefix_cons_inv_2 in H. destruct (IH _ H) as [Hp|(b' & -> & Hb)].
    + left. by apply prefix_cons.
    + right. by exists b'.
Qed.

Lemma Forall_prefix {A} (P : A -> Prop) (evs l : list A) :
  evs `prefix_of` l -> Forall P l -> Forall P evs.
Proof. intros [k ->] H. by apply Forall_app in H as [H _]. Qed.

(** What holds at every moment of a stretch of events that spare the path
    [q], that open files only after the events [quiet], and make no
    directory from then on. *)
Lemma moments (quiet busy : list event) (q : Path) (f : gmap Path node) :
  Forall (spares q) (quiet ++ busy) ->
  Forall opens_nothing quiet ->
  Forall makes_no_dir busy ->
  forall evs, evs `prefix_of` quiet ++ busy ->
    replay evs f !! q = f !! q /\ Forall (is_file (replay evs f)) (opened evs).
Proof.
  intros Hspare Hquiet Hbusy evs Hevs. split.
  - apply replay_other. by eapply Forall_prefix.
  - destruct (prefix_app_cases _ _ _ Hevs) as [Hp|(b' & -> & Hb)].
    + rewrite (opened_nothing evs); [constructor | by eapply Forall_prefix].
    + rewrite opened_app, (opened_nothing quiet Hquiet), app_nil_l, replay_app.
      rewrite Forall_forall. intros t Ht. apply replay_keeps_opened; [| exact Ht].
      by eapply Forall_prefix.
Qed.

(** C10.  Whatever the environment, the command line and the world, the
    events of a run of [main] split in two.  The first part leaves the path
    of the index alone: at every moment of it, that is, after any number of
    its events, what is at that path is what was there at the start, be it
    nothing, and the output files opened so far are there.  The second part
    is empty when the run does not complete; when it completes, it is the
    one writing of INDEX.md followed by the closing line, and the events
    before it hold the child of every plugin.  Replaying all the events
    gives the file system of the end, so that nothing else happened. *)
Theorem index_written_once_at_the_end (E : env) (argv : CommandLine) (w : world) :
  let r := main E argv w in
  let args := parse_args argv in
  let out := case_dir argv in
  let idx := Pathlib.joinpath out "INDEX.md" in
  fs (world_of r) = replay (events_of r) (fs w) /\
  exists pre post,
    events_of r = pre ++ post /\
    Forall (spares idx) pre /\
    (forall evs, evs `prefix_of` pre ->
       replay evs (fs w) !! idx = fs w !! idx /\
       Forall (is_file (replay evs (fs w))) (opened evs)) /\
    ((post = [] /\ outcome_of r <> Ok tt) \/
     (exists vol,
        post = [EvWriteText idx (index_document E args vol);
                EvPrint Stdout (saved_message out)] /\
        outcome_of r = Ok tt /\
        captured_runs pre = plugin_runs vol args)).
Proof.
  intros r args out idx. split; [apply sound_main |].
  destruct (locate (answers E (clock w) CANDIDATE_CMDS)) as [[vol|]|e|c] eqn:Hloc.
  - (* the tool is located *)
    pose proof (main_found E argv w vol Hloc) as Hmain. cbn zeta in Hmain.
    set (ans := take (tried (answers E (clock w) CANDIDATE_CMDS))
                     (answers E (clock w) CANDIDATE_CMDS)) in *.
    set (w1 := {| fs := fs w; clock := clock w + tried (answers E (clock w) CANDIDATE_CMDS) |})
      in *.
    destruct (triage_shape E (parse_args argv) vol w1)
      as (setup & loop & post & Hev & Hsetup & Hloop & Hcases).
    exists ((probe_event <$> ans) ++ setup ++ loop), post.
    assert (Forall (spares idx) (((probe_event <$> ans) ++ setup) ++ loop)) as Hspare.
    { apply Forall_app. split; [apply Forall_app; split |].
      - apply probe_events_spare.
      - eapply Forall_impl; [exact Hsetup |]. intros ev.
        apply (setup_event_spares args idx ev).
        + change (length (parts out) < length (parts (index_of out)))%nat.
          rewrite index_length. lia.
        + intros H. symmetry in H. by apply raw_not_index in H.
      - eapply Forall_impl; [exact Hloop |]. intros ev. apply loop_event_spares.
        intros plg _. apply target_not_index. }
    split; [subst r; rewrite Hmain; cbn [events_of]; by rewrite Hev, <- !app_assoc |].
    split; [by rewrite <- app_assoc in Hspare |].
    split.
    { intros evs Hevs. rewrite app_assoc in Hevs. revert evs Hevs.
      apply moments; [exact Hspare | |].
      - apply Forall_app. split; [apply probe_events_open_nothing |].
        eapply Forall_impl; [exact Hsetup |]. apply setup_event_opens_nothing.
      - eapply Forall_impl; [exact Hloop |]. apply loop_event_no_dir. }
    subst r. rewrite Hmain. cbn [outcome_of].
    destruct Hcases as [(Hok & -> & -> & _)|[Hne ->]]; [right | left; by split].
    exists vol. split; [reflexivity |]. split; [exact Hok |].
    rewrite !captured_runs_app, captured_runs_probes, (captured_runs_setup _ _ Hsetup).
    apply captured_runs_loop_events.
  - (* no tool *)
    subst r. rewrite (main_not_found E argv w Hloc). cbn [outcome_of events_of].
    eexists _, []. split; [by rewrite app_nil_r |].
    assert (Forall (spares idx)
              ((probe_event <$> take (tried (answers E (clock w) CANDIDATE_CMDS))
                                     (answers E (clock w) CANDIDATE_CMDS))
               ++ [EvPrint Stderr not_found_message])) as Hspare.
    { apply Forall_app. split; [apply probe_events_spare |].
      repeat constructor. unfold spares. simpl. apply not_elem_of_nil. }
    split; [exact Hspare |]. split; [| left; by split].
    intros evs Hevs. rewrite <- (app_nil_r (_ ++ [_])) in Hevs, Hspare. revert evs Hevs.
    apply moments; [exact Hspare | | constructor].
    apply Forall_app. split; [apply probe_events_open_nothing | by repeat constructor].
  - (* a probe raised *)
    subst r. rewrite (main_raise E argv w e Hloc). cbn [outcome_of events_of].
    eexists _, []. split; [by rewrite app_nil_r |].
    split; [apply probe_events_spare |]. split; [| left; by split].
    intros evs Hevs.
    rewrite <- (app_nil_r (probe_event <$> _)) in Hevs. revert evs Hevs.
    apply moments; [| apply probe_events_open_nothing | constructor].
    rewrite app_nil_r. apply probe_events_spare.
  - by apply locate_no_SysExit in Hloc.
Qed.

(** A run on a case directory that holds an index from before, stopped
    while the second of two plugins is about to run: the old index is as it
    was, the output of the first plugin is there, the file of the second is
    open and empty. *)
Example interrupted_run :
  let old := {[ Pathlib.of_string "cases" := Dir;
                Pathlib.of_string "cases/CASE001" := Dir;
                Pathlib.of_string "cases/CASE001/INDEX.md" := File "old index" ]} in
  let w := {| fs := old; clock := 0 |} in
  let r := main (env_vol_py 1) (sample_argv_with ["windows.pslist"; "windows.netscan"]) w in
  let so_far := take 8 (events_of r) in
  length (events_of r) = 11%nat /\
  opened so_far = [Pathlib.of_string "cases/CASE001/raw/windows_pslist.txt";
                   Pathlib.of_string "cases/CASE001/raw/windows_netscan.txt"] /\
  replay so_far old !! Pathlib.of_string "cases/CASE001/INDEX.md" = Some (File "old index") /\
  replay so_far old !! Pathlib.of_string "cases/CASE001/raw/windows_pslist.txt"
  = Some (File "PID PPIDWARNING4 0") /\
  replay so_far old !! Pathlib.of_string "cases/CASE001/raw/windows_netscan.txt"
  = Some (File "").
Proof. vm_compute. repeat split; reflexivity. Qed.

(** * Further properties *)

(** ** The locator, whatever the environment *)

Lemma tried_bound (ans : list (string * spawn_result)) : (tried ans <= length ans)%nat.
Proof.
  induction ans as [|[c [e|rc output]] ans IH]; simpl; [lia | |].
  - destruct e; lia.
  - destruct (acceptable rc); lia.
Qed.

Lemma answers_candidates (E : env) (n : nat) (cs : list string) :
  Forall (fun a => a.1 ∈ cs /\ exists k, a.2 = env_spawn E k [a.1; "-h"]) (answers E n cs).
Proof.
  revert n. induction cs as [|c cs IH]; intros n; [constructor |].
  simpl. constructor.
  - split; [by left | by exists n].
  - eapply Forall_impl; [apply IH |]. intros a [Hin Hk]. split; [by right | exact Hk].
Qed.

(** X1.  Whatever the environment does, the locator leaves the file system
    as it is, runs at least one and at most three children, each of them a
    candidate of the list with "-h" and both streams piped, and what it
    returns, if it returns a command, is one of the three candidates. *)
Theorem find_vol_only_probes (E : env) (w : world) :
  let r := find_vol E w in
  fs (world_of r) = fs w /\
  (1 <= length (events_of r) <= 3)%nat /\
  clock (world_of r) = (clock w + length (events_of r))%nat /\
  Forall (fun ev => exists c k, c ∈ CANDIDATE_CMDS /\
                      ev = EvSpawn [c; "-h"] ToPipe ToPipe (env_spawn E k [c; "-h"]))
         (events_of r) /\
  (forall v, outcome_of r = Ok (Some v) -> v ∈ CANDIDATE_CMDS) /\
  (forall code, outcome_of r <> SysExit code).
Proof.
  intros r. subst r. rewrite find_vol_run. cbn [outcome_of world_of events_of fs clock].
  set (ans := answers E (clock w) CANDIDATE_CMDS).
  pose proof (tried_bound ans) as Hle.
  pose proof (tried_positive ans ltac:(discriminate)) as Hpos.
  assert (length ans = 3%nat) as Hlen by reflexivity.
  rewrite length_fmap, length_take.
  split; [reflexivity |]. split; [lia |]. split; [lia |]. split; [| split].
  - apply Forall_fmap. apply Forall_take.
    eapply Forall_impl; [apply answers_candidates |].
    intros [c x] [Hin [k Hk]]. simpl in *. exists c, k. split; [exact Hin |].
    unfold probe_event. simpl. by rewrite Hk.
  - intros v Hv. by apply locate_Some in Hv.
  - intros code. apply locate_no_SysExit.
Qed.

(** ** An output file that cannot be opened *)



(** ** Names that share an output file *)

(** X3.  Two plugin names without a slash have the same output file
    exactly when they are the same once their dots are replaced by
    underscores. *)
Theorem same_target_iff_same_safe_name (out : Path) (a b : string) :
  Text.contains_char "/" a = false ->
  Text.contains_char "/" b = false ->
  target_of out a = target_of out b <-> safe_name a = safe_name b.
Proof.
  intros Ha Hb. rewrite (target_of_plain out a Ha), (target_of_plain out b Hb). split.
  - apply target_plain_inj.
  - by intros ->.
Qed.

Lemma same_target_iff_same_safe_name_witness :
  Text.contains_char "/" "windows.pslist" = false /\
  (target_of (Pathlib.of_string "cases/CASE001") "windows.pslist"
   = target_of (Pathlib.of_string "cases/CASE001") "windows_pslist"
   <-> safe_name "windows.pslist" = safe_name "windows_pslist").
Proof.
  split; [reflexivity |].
  exact (same_target_iff_same_safe_name (Pathlib.of_string "cases/CASE001")
           "windows.pslist" "windows_pslist" eq_refl eq_refl).
Defined.

(** ** What a run can do, and what it leaves alone *)

Section RunEvents.

Lemma emits_sys_exit {A} (P : event -> Prop) (c : Z) : emits P (@sys_exit A c).
Proof. intros w. constructor. Qed.

Lemma emits_print (P : event -> Prop) (s : stream) (line : string) :
  P (EvPrint s line) -> emits P (print s line).
Proof. intros H w. by repeat constructor. Qed.

Lemma emits_create_file (P : event -> Prop) (p : Path) (data : string) (ev : event) :
  P ev -> emits P (create_file p data ev).
Proof.
  intros H w. destruct (decide (writable (fs w) p)) as [Hw|Hw].
  - rewrite (create_file_ok _ _ _ _ Hw). by repeat constructor.
  - destruct (create_file_blocked p data ev w Hw) as [e ->]. constructor.
Qed.

Lemma emits_find_vol_in (P : event -> Prop) (E : env) (cs : list string) :
  (forall argv r, P (EvSpawn argv ToPipe ToPipe r)) -> emits P (find_vol_in E cs).
Proof.
  intros H w. rewrite find_vol_in_run. cbn [events_of]. apply Forall_fmap.
  apply Forall_forall. intros a _. apply H.
Qed.

(** Making a directory and its parents makes the directory or ancestors of
    it, nothing else. *)
Lemma emits_mkdir_parents_prefix (r : string) (rparts : list string) (exist_ok : bool) :
  emits (fun ev => exists k, ev = EvMkdir {| root := r; parts := rev (drop k rparts) |})
        (mkdir_parents r rparts exist_ok).
Proof.
  revert exist_ok. induction rparts as [|c up IH]; intros exist_ok.
  - simpl. apply emits_try_OSError.
    + eapply emits_impl; [| apply emits_os_mkdir]. intros ev ->. by exists 0%nat.
    + intros []; (apply emits_raise || apply emits_mkdir_exists).
  - assert (forall ev, ev = EvMkdir {| root := r; parts := rev (c :: up) |} ->
                       exists k, ev = EvMkdir {| root := r; parts := rev (drop k (c :: up)) |})
      as Hself.
    { intros ev ->. by exists 0%nat. }
    cbn [mkdir_parents]. apply emits_try_OSError.
    + eapply emits_impl; [exact Hself | apply emits_os_mkdir].
    + intros []; try apply emits_raise; try apply emits_mkdir_exists.
      apply emits_bind.
      * eapply emits_impl; [| apply IH]. intros ev [k ->]. by exists (S k).
      * intros _. eapply emits_impl; [exact Hself | apply emits_mkdir_plain].
Qed.

Lemma loop_event_run_event (out : Path) (plgs : list string) (ev : event) :
  loop_event out plgs ev -> run_event out plgs ev.
Proof.
  destruct ev as [argv o e r|p|p|p data|[] line]; simpl; try tauto.
  intros (plg & Hin & -> & ->). by exists plg.
Qed.

Lemma emits_triage (E : env) (args : Namespace) (vol : string) :
  emits (run_event (Pathlib.of_string (outdir args)) (plugins args)) (triage E args vol).
Proof.
  set (out := Pathlib.of_string (outdir args)).
  unfold triage. fold out. apply emits_bind; [| intros _; apply emits_bind; [| intros _]].
  - unfold mkdir. eapply emits_impl; [| apply emits_mkdir_parents_prefix].
    intros ev [k ->]. right. exists (length (parts out) - k)%nat.
    by rewrite skipn_rev, rev_involutive.
  - unfold mkdir. eapply emits_impl; [| apply emits_mkdir_plain]. intros ev ->. by left.
  - apply emits_bind.
    + eapply emits_impl; [| apply emits_for_plugins]. apply loop_event_run_event.
    + intros summary. apply emits_bind; [| intros _; by apply emits_print].
      unfold write_text. by apply emits_create_file.
Qed.

End RunEvents.

Lemma emits_main (E : env) (argv : CommandLine) :
  emits (run_event (case_dir argv) (plugins (parse_args argv))) (main E argv).
Proof.
  unfold main. apply emits_bind.
  - apply emits_find_vol_in. intros a r. exact I.
  - intros vol. destruct (negb (truthy_str vol)); [| apply emits_triage].
    apply emits_bind; [by apply emits_print | intros _; apply emits_sys_exit].
Qed.


Lemma run_event_spares (out : Path) (plgs : list string) (q : Path) (ev : event) :
  (forall k, q <> {| root := root out; parts := take k (parts out) |}) ->
  q <> Pathlib.joinpath out "raw" ->
  Forall (fun plg => q <> target_of out plg) plgs ->
  q <> index_of out ->
  run_event out plgs ev -> spares q ev.
Proof.
  intros Hdirs Hraw Htargets Hidx. rewrite Forall_forall in Htargets. unfold spares.
  destruct ev as [argv o e r|p|p|p data|s line]; simpl.
  - destruct o as [|t]; [destruct e as [|t'] |].
    + intros _. apply not_elem_of_nil.
    + intros (plg & _ & [=] & _).
    + intros (plg & Hin & [= ->] & ->). unfold redirect_targets.
      rewrite decide_True by reflexivity. intros H. apply list_elem_of_singleton in H.
      by apply (Htargets plg Hin).
  - intros [->|[k ->]] H; apply list_elem_of_singleton in H; [by apply Hraw | by apply (Hdirs k)].
  - intros (plg & Hin & ->) H. apply list_elem_of_singleton in H. by apply (Htargets plg Hin).
  - intros -> H. apply list_elem_of_singleton in H. by apply Hidx.
  - intros _. apply not_elem_of_nil.
Qed.



(** ** Exit status *)

Section NeverExits.

Lemma never_exits_ret {A} (a : A) : never_exits (mret a).
Proof. intros w c. discriminate. Qed.

Lemma never_exits_raise {A} (e : exn) : never_exits (@raise A e).
Proof. intros w c. discriminate. Qed.

Lemma never_exits_bind {A B} (m : M A) (k : A -> M B) :
  never_exits m -> (forall a, never_exits (k a)) -> never_exits (m ≫= k).
Proof.
  intros Hm Hk w c. unfold mbind, M_bind, bind. specialize (Hm w).
  destruct (outcome_of (m w)) as [a|e|c'] eqn:Ho; cbn [outcome_of].
  - apply Hk.
  - discriminate.
  - by destruct (Hm c').
Qed.

Lemma never_exits_try_OSError {A} (m : M A) (h : exn -> M A) :
  never_exits m -> (forall e, never_exits (h e)) -> never_exits (try_except_OSError m h).
Proof.
  intros Hm Hh w c. unfold try_except_OSError. specialize (Hm w).
  destruct (outcome_of (m w)) as [a|e|c'] eqn:Ho; cbn [outcome_of].
  - rewrite Ho. discriminate.
  - apply Hh.
  - by destruct (Hm c').
Qed.

Lemma never_exits_os_mkdir (p : Path) : never_exits (os_mkdir p).
Proof.
  intros w c. rewrite os_mkdir_run. destruct (fs_get (fs w) p); [discriminate |].
  destruct (fs_get (fs w) (Pathlib.parent p)) as [[|d]|]; discriminate.
Qed.

Lemma never_exits_mkdir_exists (p : Path) (exist_ok : bool) (e : exn) :
  never_exits (mkdir_exists p exist_ok e).
Proof.
  intros w c. unfold mkdir_exists, mbind, M_bind, bind, get_fs. cbn [outcome_of world_of].
  destruct (negb exist_ok || negb (is_dir (fs w) p)); discriminate.
Qed.

Lemma never_exits_mkdir_plain (p : Path) (exist_ok : bool) :
  never_exits (mkdir_plain p exist_ok).
Proof.
  apply never_exits_try_OSError; [apply never_exits_os_mkdir |].
  intros []; (apply never_exits_raise || apply never_exits_mkdir_exists).
Qed.

Lemma never_exits_mkdir_parents (r : string) (rparts : list string) (exist_ok : bool) :
  never_exits (mkdir_parents r rparts exist_ok).
Proof.
  revert exist_ok. induction rparts as [|c up IH]; intros exist_ok; cbn [mkdir_parents];
    (apply never_exits_try_OSError; [apply never_exits_os_mkdir |]);
    intros []; try apply never_exits_raise; try apply never_exits_mkdir_exists.
  apply never_exits_bind; [apply IH | intros _; apply never_exits_mkdir_plain].
Qed.

Lemma never_exits_create_file (p : Path) (data : string) (ev : event) :
  never_exits (create_file p data ev).
Proof.
  intros w c. destruct (decide (writable (fs w) p)) as [Hw|Hw].
  - rewrite (create_file_ok _ _ _ _ Hw). discriminate.
  - destruct (create_file_blocked p data ev w Hw) as [e ->]. discriminate.
Qed.

Lemma never_exits_print (s : stream) (line : string) : never_exits (print s line).
Proof. intros w c. discriminate. Qed.

Lemma never_exits_subprocess_run (E : env) (argv : list string) (o e : redirect) :
  never_exits (subprocess_run E argv o e).
Proof.
  intros w c. unfold subprocess_run. destruct (env_spawn E (clock w) argv); discriminate.
Qed.

Lemma never_exits_for_plugins (E : env) (vol img : string) (out : Path)
    (plgs summary : list string) :
  never_exits (for_plugins E vol img out plgs summary).
Proof.
  revert summary. induction plgs as [|plg rest IH]; intros summary; [apply never_exits_ret |].
  cbn [for_plugins]. apply never_exits_bind; [apply never_exits_print | intros _].
  apply never_exits_bind; [| intros _; apply IH].
  unfold run_plugin. apply never_exits_bind; [apply never_exits_create_file | intros _].
  apply never_exits_bind; [apply never_exits_subprocess_run | intros _; apply never_exits_ret].
Qed.

(** Once the tool is known, [main] returns or raises. *)
Lemma never_exits_triage (E : env) (args : Namespace) (vol : string) :
  never_exits (triage E args vol).
Proof.
  unfold triage. apply never_exits_bind; [| intros _; apply never_exits_bind; [| intros _]].
  - unfold mkdir. apply never_exits_mkdir_parents.
  - unfold mkdir. apply never_exits_mkdir_plain.
  - apply never_exits_bind; [apply never_exits_for_plugins | intros summary].
    apply never_exits_bind; [apply never_exits_create_file | intros _; apply never_exits_print].
Qed.

Lemma printed_app (s : stream) (evs evs' : list event) :
  printed s (evs ++ evs') = printed s evs ++ printed s evs'.
Proof. unfold printed. apply omap_app. Qed.

Lemma printed_probes (s : stream) (ans : list (string * spawn_result)) :
  printed s (probe_event <$> ans) = [].
Proof. induction ans as [|a ans IH]; [reflexivity | exact IH]. Qed.

Lemma printed_setup (s : stream) (out : Path) (evs : list event) :
  Forall (setup_event out) evs -> printed s evs = [].
Proof.
  induction 1 as [|ev evs Hev _ IH]; [reflexivity |].
  destruct ev; try contradiction. exact IH.
Qed.

Lemma printed_stderr_loop (out : Path) (plgs : list string) (evs : list event) :
  Forall (loop_event out plgs) evs -> printed Stderr evs = [].
Proof.
  induction 1 as [|ev evs Hev _ IH]; [reflexivity |].
  destruct ev as [| | | |[] line]; try contradiction; exact IH.
Qed.

End NeverExits.


(** ** A regular file in the place of the case directory *)

Lemma mkdir_parents_file (r : string) (rparts : list string) (exist_ok : bool) (w : world)
    (c : string) :
  fs_get (fs w) {| root := r; parts := rev rparts |} = Some (File c) ->
  mkdir_parents r rparts exist_ok w = Run (Raise FileExistsError) w [].
Proof.
  intros H.
  assert (try_except_OSError (os_mkdir {| root := r; parts := rev rparts |})
            (fun e => match e with
                      | FileNotFoundError =>
                          match rparts with
                          | [] => raise FileNotFoundError
                          | _ :: up =>
                              mkdir_parents r up true ;;
                              mkdir_plain {| root := r; parts := rev rparts |} exist_ok
                          end
                      | _ => mkdir_exists {| root := r; parts := rev rparts |} exist_ok e
                      end) w
          = Run (Raise FileExistsError) w []) as Hrun.
  { unfold try_except_OSError. rewrite os_mkdir_run, H. cbn [outcome_of world_of events_of].
    unfold mkdir_exists, mbind, M_bind, bind, get_fs, is_dir. cbn [outcome_of world_of events_of].
    rewrite H. by rewrite orb_true_r. }
  destruct rparts; exact Hrun.
Qed.

(** X7.  When the path given as the case directory is a regular file, and
    the tool is located, [main] ends in an uncaught [FileExistsError], exit
    status 1: nothing is made or written, and no plugin is run. *)
Theorem outdir_is_a_file (E : env) (argv : CommandLine) (w : world) (vol content : string) :
  outcome_of (find_vol E w) = Ok (Some vol) ->
  fs_get (fs w) (case_dir argv) = Some (File content) ->
  let r := main E argv w in
  outcome_of r = Raise FileExistsError /\
  exit_status (outcome_of r) = 1 /\
  events_of r = events_of (find_vol E w) /\
  fs (world_of r) = fs w.
Proof.
  rewrite find_vol_run. cbn [outcome_of events_of]. intros Hloc Hfile. cbn zeta.
  pose proof (main_found E argv w vol Hloc) as Hmain. cbn zeta in Hmain. rewrite Hmain.
  set (w1 := {| fs := fs w; clock := clock w + tried (answers E (clock w) CANDIDATE_CMDS) |}).
  assert (triage E (parse_args argv) vol w1 = Run (Raise FileExistsError) w1 []) as Ht.
  { unfold triage, mbind, M_bind, bind, mkdir.
    rewrite (mkdir_parents_file _ _ true w1 content); [reflexivity |].
    rewrite rev_involutive. unfold case_dir in Hfile.
    by destruct (Pathlib.of_string (outdir (parse_args argv))). }
  rewrite Ht. cbn [outcome_of world_of events_of fs exit_status]. by rewrite app_nil_r.
Qed.

Lemma outdir_is_a_file_witness :
  let w := {| fs := fs_with_file_as_outdir; clock := 0 |} in
  let r := main (env_vol_py 0) sample_argv w in
  fs_get (fs w) (case_dir sample_argv) = Some (File "notes") /\
  outcome_of r = Raise FileExistsError /\
  exit_status (outcome_of r) = 1 /\
  events_of r = events_of (find_vol (env_vol_py 0) w) /\
  fs (world_of r) = fs w.
Proof.
  intros w r.
  assert (fs_get (fs w) (case_dir sample_argv) = Some (File "notes")) as Hfile
    by (vm_compute; reflexivity).
  split; [exact Hfile |].
  exact (outdir_is_a_file (env_vol_py 0) sample_argv w "vol.py" "notes" eq_refl Hfile).
Defined.

(** ** When the loop completes, and where it stops *)

Section LoopOutcome.

Variable E : env.
Variables vol img : string.
Variable out : Path.

Lemma each_starts_app (n : nat) (a b : list string) :
  each_starts E n vol img (a ++ b) <->
  each_starts E n vol img a /\ each_starts E (n + length a) vol img b.
Proof.
  revert n. induction a as [|x a IH]; intros n; simpl.
  - rewrite Nat.add_0_r. tauto.
  - rewrite IH, Nat.add_succ_r. simpl. tauto.
Qed.

Lemma children_start_each (n : nat) (plgs : list string) :
  children_start E n vol -> each_starts E n vol img plgs.
Proof.
  revert n. induction plgs as [|plg rest IH]; intros n H; [exact I |].
  split; [apply (H n [img; plg]); lia |].
  apply IH. intros k r Hk. apply H. lia.
Qed.

Lemma target_writable (f : gmap Path node) (plg : string) :
  fs_get f (Pathlib.joinpath out "raw") = Some Dir ->
  Text.contains_char "/" plg = false ->
  fs_get f (target_of out plg) <> Some Dir ->
  writable f (target_of out plg).
Proof.
  intros Hraw Hp Ht. unfold writable.
  destruct (fs_get f (target_of out plg)) as [[|c]|]; [by apply Ht | exact I |].
  by rewrite (parent_target out plg Hp).
Qed.

Lemma loop_ready_insert (f : gmap Path node) (plg : string) (rest : list string)
    (data : string) :
  loop_ready out f (plg :: rest) ->
  loop_ready out (<[target_of out plg := File data]> f) rest.
Proof.
  intros (Hraw & Hplain & Htargets).
  apply Forall_cons in Hplain as [Hp Hplain]. apply Forall_cons in Htargets as [Ht Htargets].
  pose proof (target_length out plg Hp) as Hl.
  split; [| split; [exact Hplain |]].
  - rewrite fs_get_insert_ne; [exact Hraw |].
    intros H. rewrite H, raw_length in Hl. lia.
  - eapply Forall_impl; [exact Htargets |]. intros plg' Hd. cbn beta in Hd.
    destruct (decide (target_of out plg = target_of out plg')) as [<-|Hne].
    + rewrite fs_get_insert_eq; [discriminate |]. intros H. rewrite H in Hl. discriminate Hl.
    + by rewrite fs_get_insert_ne.
Qed.

(** One turn of the loop, when the output file of the plugin can be
    opened. *)
Lemma for_plugins_turn (plg : string) (rest summary : list string) (w : world) :
  loop_ready out (fs w) [plg] ->
  for_plugins E vol img out (plg :: rest) summary w =
  match env_spawn E (clock w) [vol; "-f"; img; plg] with
  | Failed e =>
      Run (Raise e)
          {| fs := <[target_of out plg := File ""]> (fs w); clock := S (clock w) |}
          [EvPrint Stdout (running_line out plg); EvOpenW (target_of out plg);
           EvSpawn [vol; "-f"; img; plg] (ToFile (target_of out plg))
             (ToFile (target_of out plg)) (Failed e)]
  | Started rc output =>
      Run (outcome_of
             (for_plugins E vol img out rest (summary ++ [summary_line (target_of out plg)])
                {| fs := <[target_of out plg := File (combined output)]> (fs w);
                   clock := S (clock w) |}))
          (world_of
             (for_plugins E vol img out rest (summary ++ [summary_line (target_of out plg)])
                {| fs := <[target_of out plg := File (combined output)]> (fs w);
                   clock := S (clock w) |}))
          ([EvPrint Stdout (running_line out plg); EvOpenW (target_of out plg);
            EvSpawn [vol; "-f"; img; plg] (ToFile (target_of out plg))
              (ToFile (target_of out plg)) (Started rc output)]
           ++ events_of
                (for_plugins E vol img out rest (summary ++ [summary_line (target_of out plg)])
                   {| fs := <[target_of out plg := File (combined output)]> (fs w);
                      clock := S (clock w) |}))
  end.
Proof.
  intros (Hraw & Hplain & Htargets).
  apply Forall_cons in Hplain as [Hp _]. apply Forall_cons in Htargets as [Ht _].
  rewrite for_plugins_cons.
  rewrite (run_plugin_run E vol img plg _ None w (target_writable _ _ Hraw Hp Ht)).
  change (plugin_argv vol img plg None) with [vol; "-f"; img; plg].
  destruct (env_spawn E (clock w) [vol; "-f"; img; plg]) as [e|rc output]; reflexivity.
Qed.

Lemma loop_ready_head (f : gmap Path node) (plg : string) (rest : list string) :
  loop_ready out f (plg :: rest) -> loop_ready out f [plg].
Proof.
  intros (Hraw & Hplain & Htargets).
  apply Forall_cons in Hplain as [Hp _]. apply Forall_cons in Htargets as [Ht _].
  split; [exact Hraw |]. split; by repeat constructor.
Qed.

(** On a file system that is ready for it, the loop completes exactly when
    the tool starts on each plugin. *)
Lemma for_plugins_Ok_iff (plgs summary : list string) (w : world) :
  loop_ready out (fs w) plgs ->
  (exists summary', outcome_of (for_plugins E vol img out plgs summary w) = Ok summary')
  <-> each_starts E (clock w) vol img plgs.
Proof.
  revert summary w. induction plgs as [|plg rest IH]; intros summary w Hready.
  - split; [intros _; exact I | intros _; by exists summary].
  - rewrite (for_plugins_turn plg rest summary w (loop_ready_head _ _ _ Hready)).
    cbn [each_starts].
    destruct (env_spawn E (clock w) [vol; "-f"; img; plg]) as [e|rc output].
    + split; [intros [s Hs]; discriminate Hs | intros [(rc & output & H) _]; discriminate H].
    + cbn [outcome_of].
      rewrite (IH _ {| fs := <[target_of out plg := File (combined output)]> (fs w);
                       clock := S (clock w) |}); [| by apply loop_ready_insert].
      cbn [clock]. split; [intros H; split; [by eexists _, _ | exact H] | by intros [_ H]].
Qed.

(** The loop stops at the first plugin on which the tool does not start:
    the plugins before it have run, its own output file is left empty, the
    plugins after it are not run. *)
Lemma for_plugins_fails_at (before : list string) (plg : string) (after summary : list string)
    (w : world) (e : exn) :
  loop_ready out (fs w) (before ++ [plg]) ->
  each_starts E (clock w) vol img before ->
  env_spawn E (clock w + length before) [vol; "-f"; img; plg] = Failed e ->
  outcome_of (for_plugins E vol img out (before ++ plg :: after) summary w) = Raise e /\
  events_of (for_plugins E vol img out (before ++ plg :: after) summary w)
  = loop_events E vol img out (before ++ [plg]) (clock w) /\
  clock (world_of (for_plugins E vol img out (before ++ plg :: after) summary w))
  = (clock w + S (length before))%nat /\
  fs (world_of (for_plugins E vol img out (before ++ plg :: after) summary w))
    !! target_of out plg = Some (File "").
Proof.
  revert summary w. induction before as [|b bs IH]; intros summary w Hready Hstarts Hfail.
  - cbn [app length] in *. rewrite Nat.add_0_r in Hfail.
    rewrite (for_plugins_turn plg after summary w Hready), Hfail.
    cbn [outcome_of world_of events_of fs clock loop_events]. rewrite Hfail.
    split; [reflexivity |]. split; [reflexivity |]. split; [lia | apply lookup_insert_eq].
  - cbn [app length] in *. destruct Hstarts as [(rc & output & Hb) Hstarts].
    rewrite (for_plugins_turn b (bs ++ plg :: after) summary w (loop_ready_head _ _ _ Hready)), Hb.
    cbn [outcome_of world_of events_of].
    destruct (IH (summary ++ [summary_line (target_of out b)])
                 {| fs := <[target_of out b := File (combined output)]> (fs w);
                    clock := S (clock w) |})
      as (Ho & Hev & Hclock & Hfs).
    + by apply loop_ready_insert.
    + exact Hstarts.
    + cbn [clock]. by rewrite Nat.add_succ_r in Hfail.
    + split; [exact Ho |]. split; [| split; [| exact Hfs]].
      * rewrite Hev. cbn [loop_events clock]. by rewrite Hb.
      * rewrite Hclock. cbn [clock]. lia.
Qed.

End LoopOutcome.

(** ** From the directories to the end of the run *)

Section AfterSetup.

Variable E : env.
Variable args : Namespace.
Variable vol : string.

Let out : Path := Pathlib.of_string (outdir args).
Let raw : Path := Pathlib.joinpath out "raw".
Let idx : Path := index_of out.
Let head : list string :=
  summary_head (env_strftime E "%Y%m%d-%H%M%S") (file args) vol (plugins args).

(** On a ready file system the two directories are made, or found, and the
    file system is then ready for the loop. *)
Lemma setup_ready_run (w : world) :
  ready (fs w) out (plugins args) ->
  exists w1 w2 ev1 ev2,
    mkdir out true true w = Run (Ok tt) w1 ev1 /\
    mkdir raw false true w1 = Run (Ok tt) w2 ev2 /\
    clock w2 = clock w /\
    Forall (setup_event out) (ev1 ++ ev2) /\
    fs w2 = replay (ev1 ++ ev2) (fs w) /\
    loop_ready out (fs w2) (plugins args) /\
    fs_get (fs w2) out = Some Dir /\
    fs w2 !! idx = fs w !! idx.
Proof.
  intros [Hdirs Hraw Hplain Htargets Hindex].
  destruct (mkdir_parents_ok (root out) (rev (parts out)) w) as [Hok1 Hdir1].
  { intros k c. rewrite skipn_rev, rev_involutive. apply Hdirs. }
  rewrite rev_involutive in Hdir1.
  pose proof (emits_mkdir_parents (root out) (rev (parts out)) true w) as E1.
  rewrite length_rev in E1.
  change (mkdir_parents (root out) (rev (parts out)) true) with (mkdir out true true) in *.
  replace {| root := root out; parts := parts out |} with out in Hdir1 by (by destruct out).
  pose proof (sound_mkdir out true true w) as S1.
  pose proof (keeps_clock_mkdir out true true w) as C1.
  pose proof (emits_mkdir_out args w) as E1'. fold out in E1'.
  destruct (mkdir out true true w) as [o1 w1 ev1] eqn:Hrun1.
  cbn [outcome_of world_of events_of] in *. subst o1.
  assert (forall q, (length (parts out) < length (parts q))%nat -> fs w1 !! q = fs w !! q)
    as Hsame1.
  { intros q Hlen. rewrite S1. apply replay_other.
    eapply Forall_impl; [exact E1 |]. intros ev. by apply mkdir_event_spares. }
  destruct (mkdir_plain_ok raw w1) as (ev2 & Hrun2 & Hev2 & Hdir2).
  { unfold raw. by rewrite parent_raw. }
  { intros c. rewrite (fs_get_ext _ (fs w) raw); [apply Hraw |].
    apply Hsame1. unfold raw. rewrite raw_length. lia. }
  change (mkdir_plain raw true) with (mkdir raw false true) in Hrun2.
  set (w2 := {| fs := replay ev2 (fs w1); clock := clock w1 |}) in *.
  assert (forall q, q <> raw -> fs w2 !! q = fs w1 !! q) as Hsame2.
  { intros q Hq. unfold w2. cbn [fs]. destruct Hev2 as [-> | ->]; [reflexivity |].
    simpl. by apply lookup_insert_ne. }
  exists w1, w2, ev1, ev2. split; [reflexivity |]. split; [exact Hrun2 |].
  split; [exact C1 |]. split; [| split; [| split; [| split]]].
  - apply Forall_app. split; [exact E1' |].
    destruct Hev2 as [-> | ->]; [constructor |].
    apply Forall_cons. split; [by right | constructor].
  - unfold w2. cbn [fs]. by rewrite replay_app, S1.
  - split; [exact Hdir2 |]. split; [exact Hplain |].
    rewrite Forall_forall in Hplain, Htargets |- *. intros plg Hin.
    pose proof (target_length out plg (Hplain plg Hin)) as Hl.
    rewrite (fs_get_ext _ (fs w) (target_of out plg)); [by apply Htargets |].
    rewrite Hsame2, Hsame1; [reflexivity | lia |].
    intros H. rewrite H in Hl. unfold raw in Hl. rewrite raw_length in Hl. lia.
  - rewrite <- Hdir1. apply fs_get_ext. apply Hsame2.
    intros H. apply (f_equal (fun p => length (parts p))) in H.
    unfold raw in H. rewrite raw_length in H. lia.
  - rewrite Hsame2, Hsame1; [reflexivity | |].
    + unfold idx. rewrite index_length. lia.
    + unfold idx, raw. intros H. symmetry in H. by apply (raw_not_index out) in H.
Qed.

(** The loop leaves the index alone and, the names holding no slash, the
    case directory too. *)
Lemma loop_keeps (plgs summary : list string) (w : world) :
  fs (world_of (for_plugins E vol (file args) out plgs summary w)) !! idx = fs w !! idx /\
  (Forall (fun plg => Text.contains_char "/" plg = false) plgs ->
   fs_get (fs (world_of (for_plugins E vol (file args) out plgs summary w))) out
   = fs_get (fs w) out).
Proof.
  pose proof (sound_for_plugins E vol (file args) out plgs summary w) as S3.
  pose proof (emits_for_plugins E vol (file args) out plgs summary w) as E3.
  split.
  - rewrite S3. apply replay_other. eapply Forall_impl; [exact E3 |].
    intros ev. apply loop_event_spares. intros plg _. apply target_not_index.
  - intros Hplain. apply fs_get_ext. rewrite S3. apply replay_other.
    eapply Forall_impl; [exact E3 |]. intros ev. apply loop_event_spares.
    intros plg Hin Heq. rewrite Forall_forall in Hplain.
    pose proof (target_length out plg (Hplain plg Hin)) as Hl. rewrite Heq in Hl. lia.
Qed.

(** On a ready file system, how [main] goes on from the case directory is
    decided by the loop: when the loop completes the index is written and
    [main] returns; otherwise [main] ends as the loop did. *)
Lemma triage_after_setup (w : world) :
  ready (fs w) out (plugins args) ->
  exists setup w2,
    Forall (setup_event out) setup /\
    clock w2 = clock w /\
    fs w2 = replay setup (fs w) /\
    loop_ready out (fs w2) (plugins args) /\
    fs w2 !! idx = fs w !! idx /\
    triage E args vol w =
    match outcome_of (for_plugins E vol (file args) out (plugins args) head w2) with
    | Ok s =>
        Run (Ok tt)
            {| fs := <[idx := File (index_text s)]>
                       (fs (world_of (for_plugins E vol (file args) out (plugins args) head w2)));
               clock := clock (world_of (for_plugins E vol (file args) out (plugins args) head w2)) |}
            (setup ++ events_of (for_plugins E vol (file args) out (plugins args) head w2)
             ++ [EvWriteText idx (index_text s); EvPrint Stdout (saved_message out)])
    | Raise e =>
        Run (Raise e) (world_of (for_plugins E vol (file args) out (plugins args) head w2))
            (setup ++ events_of (for_plugins E vol (file args) out (plugins args) head w2))
    | SysExit c =>
        Run (SysExit c) (world_of (for_plugins E vol (file args) out (plugins args) head w2))
            (setup ++ events_of (for_plugins E vol (file args) out (plugins args) head w2))
    end.
Proof.
  intros Hready.
  destruct (setup_ready_run w Hready)
    as (w1 & w2 & ev1 & ev2 & Hrun1 & Hrun2 & Hclock & Hsetup & Hfs & Hloop & Hout & Hidx).
  exists (ev1 ++ ev2), w2. do 5 (split; [assumption |]).
  destruct (loop_keeps (plugins args) head w2) as [Hidx3 Hout3].
  destruct Hloop as (Hraw2 & Hplain & Htargets2).
  specialize (Hout3 Hplain).
  set (r3 := for_plugins E vol (file args) out (plugins args) head w2) in *.
  assert (writable (fs (world_of r3)) idx) as Hw.
  { unfold writable. rewrite (fs_get_ext _ (fs w) idx); [| by rewrite Hidx3, Hidx].
    destruct (fs_get (fs w) idx) as [[|c]|] eqn:Hi;
      [by apply (ready_index _ _ _ Hready) | exact I |].
    replace (Pathlib.parent idx) with out by (symmetry; apply (parent_index args)).
    by rewrite Hout3. }
  unfold triage, mbind, M_bind, bind. fold out. rewrite Hrun1.
  cbn [outcome_of world_of events_of]. fold raw. rewrite Hrun2.
  cbn [outcome_of world_of events_of]. fold head. fold r3.
  destruct (outcome_of r3) as [s| |]; cbn [outcome_of world_of events_of].
  - fold idx. unfold write_text. rewrite (create_file_ok _ _ _ _ Hw).
    cbn [outcome_of world_of events_of fs clock]. by rewrite <- !app_assoc.
  - by rewrite <- !app_assoc.
  - by rewrite <- !app_assoc.
Qed.

End AfterSetup.

Section MainOutcome.

Variable E : env.
Variable argv : CommandLine.
Variable w : world.
Variable vol : string.

Let args : Namespace := parse_args argv.
Let out : Path := case_dir argv.
Let idx : Path := index_of out.
Let n : nat := clock (world_of (find_vol E w)).
Let head : list string :=
  summary_head (env_strftime E "%Y%m%d-%H%M%S") (file args) vol (plugins args).

Hypothesis Hlocated : outcome_of (find_vol E w) = Ok (Some vol).
Hypothesis Hready : ready (fs w) out (plugins args).

(** [main] on a ready file system, the tool being located, by how the loop
    ends. *)
Lemma main_after_setup :
  exists setup w2,
    Forall (setup_event out) setup /\
    clock w2 = n /\
    fs w2 = replay setup (fs w) /\
    loop_ready out (fs w2) (plugins args) /\
    fs w2 !! idx = fs w !! idx /\
    main E argv w =
    match outcome_of (for_plugins E vol (file args) out (plugins args) head w2) with
    | Ok s =>
        Run (Ok tt)
            {| fs := <[idx := File (index_text s)]>
                       (fs (world_of (for_plugins E vol (file args) out (plugins args) head w2)));
               clock := clock (world_of (for_plugins E vol (file args) out (plugins args) head w2)) |}
            (events_of (find_vol E w) ++ setup
             ++ events_of (for_plugins E vol (file args) out (plugins args) head w2)
             ++ [EvWriteText idx (index_text s); EvPrint Stdout (saved_message out)])
    | Raise e =>
        Run (Raise e) (world_of (for_plugins E vol (file args) out (plugins args) head w2))
            (events_of (find_vol E w) ++ setup
             ++ events_of (for_plugins E vol (file args) out (plugins args) head w2))
    | SysExit c =>
        Run (SysExit c) (world_of (for_plugins E vol (file args) out (plugins args) head w2))
            (events_of (find_vol E w) ++ setup
             ++ events_of (for_plugins E vol (file args) out (plugins args) head w2))
    end.
Proof.
  revert Hlocated. unfold n. rewrite find_vol_run. cbn [outcome_of world_of events_of clock].
  intros Hloc. pose proof (main_found E argv w vol Hloc) as Hmain. cbn zeta in Hmain.
  set (w1 := {| fs := fs w; clock := clock w + tried (answers E (clock w) CANDIDATE_CMDS) |})
    in *.
  destruct (triage_after_setup E args vol w1 Hready)
    as (setup & w2 & Hsetup & Hclock & Hfs & Hloop & Hidx & Ht).
  exists setup, w2. do 5 (split; [assumption |]).
  rewrite Hmain. fold args. rewrite Ht.
  unfold head, idx, out, case_dir, args.
  destruct (outcome_of (for_plugins E vol _ _ _ _ w2)); reflexivity.
Qed.

End MainOutcome.



(** X9.  With the tool located and the file system ready, when the tool
    starts on the plugins [before] and then cannot be started on the plugin
    [plg]: [main] ends in that error, exit status 1; the children run for
    plugins are those of [before] and of [plg], the plugins after it are
    not run; the output files of [before] are there and that of [plg] is
    left empty; and the index is as it was before the run. *)
Theorem main_stops_at_failed_start (E : env) (argv : CommandLine) (w : world)
    (vol : string) (before : list string) (plg : string) (after : list string) (e : exn) :
  outcome_of (find_vol E w) = Ok (Some vol) ->
  ready (fs w) (case_dir argv) (plugins (parse_args argv)) ->
  plugins (parse_args argv) = before ++ plg :: after ->
  each_starts E (clock (world_of (find_vol E w))) vol (file (parse_args argv)) before ->
  env_spawn E (clock (world_of (find_vol E w)) + length before)
    [vol; "-f"; file (parse_args argv); plg] = Failed e ->
  let r := main E argv w in
  let out := case_dir argv in
  outcome_of r = Raise e /\
  exit_status (outcome_of r) = 1 /\
  captured_runs (events_of r)
  = (fun p => [vol; "-f"; file (parse_args argv); p]) <$> (before ++ [plg]) /\
  Forall (fun p => is_file (fs (world_of r)) (target_of out p)) before /\
  fs (world_of r) !! target_of out plg = Some (File "") /\
  fs (world_of r) !! index_of out = fs w !! index_of out.
Proof.
  intros Hloc Hready Hplgs Hstarts Hfail r out. subst r.
  destruct (main_after_setup E argv w vol Hloc Hready)
    as (setup & w2 & Hsetup & Hclock & _ & Hloop & Hidx & ->).
  destruct (probes_of_find_vol E w) as [ans Hans].
  destruct (loop_keeps E (parse_args argv) vol (plugins (parse_args argv))
              (summary_head (env_strftime E "%Y%m%d-%H%M%S") (file (parse_args argv)) vol
                 (plugins (parse_args argv))) w2) as [Hidx3 _].
  pose proof (sound_for_plugins E vol (file (parse_args argv)) (case_dir argv)
                (plugins (parse_args argv))
                (summary_head (env_strftime E "%Y%m%d-%H%M%S") (file (parse_args argv)) vol
                   (plugins (parse_args argv))) w2) as S3.
  revert Hidx3 S3. generalize (summary_head (env_strftime E "%Y%m%d-%H%M%S")
                                 (file (parse_args argv)) vol (plugins (parse_args argv))).
  rewrite Hplgs in Hloop |- *. intros head Hidx3 S3.
  destruct (for_plugins_fails_at E vol (file (parse_args argv)) (case_dir argv)
              before plg after head w2 e) as (Ho & Hev & _ & Hfile).
  { destruct Hloop as (Hraw & Hplain & Htargets). split; [exact Hraw |].
    rewrite cons_middle, app_assoc in Hplain, Htargets.
    apply Forall_app in Hplain as [Hplain _]. apply Forall_app in Htargets as [Htargets _].
    by split. }
  { by rewrite Hclock. }
  { by rewrite Hclock. }
  rewrite Ho. cbn [outcome_of world_of events_of exit_status].
  split; [reflexivity |]. split; [reflexivity |]. split; [| split; [| split]].
  - rewrite Hans, Hev, !captured_runs_app, captured_runs_probes,
      (captured_runs_setup _ _ Hsetup).
    apply captured_runs_loop_events.
  - rewrite S3, Hev. apply Forall_forall. intros p Hp.
    apply replay_keeps_opened; [apply loop_events_no_dir |].
    rewrite opened_loop_events. apply list_elem_of_fmap. exists p. split; [reflexivity |].
    apply elem_of_app. by left.
  - exact Hfile.
  - exact (eq_trans Hidx3 Hidx).
Qed.

Lemma main_stops_at_failed_start_witness :
  let E := env_vol_py_vanishes 1 in
  let argv := sample_argv_with ["windows.pslist"; "windows.netscan"; "windows.malfind"] in
  let r := main E argv empty_world in
  let raw_file := fun name => {| root := ""; parts := ["cases"; "CASE001"; "raw"; name] |} in
  env_spawn E 3 ["vol.py"; "-f"; "mem.raw"; "windows.netscan"] = Failed FileNotFoundError /\
  outcome_of r = Raise FileNotFoundError /\
  exit_status (outcome_of r) = 1 /\
  captured_runs (events_of r)
  = [["vol.py"; "-f"; "mem.raw"; "windows.pslist"];
     ["vol.py"; "-f"; "mem.raw"; "windows.netscan"]] /\
  Forall (fun p => is_file (fs (world_of r)) (target_of (case_dir argv) p)) ["windows.pslist"] /\
  fs (world_of r) !! raw_file "windows_netscan.txt" = Some (File "") /\
  fs (world_of r) !! index_of (case_dir argv) = None.
Proof.
  intros E argv r raw_file.
  assert (outcome_of (find_vol E empty_world) = Ok (Some "vol.py")) as Hloc by reflexivity.
  assert (ready (fs empty_world) (case_dir argv)
            ["windows.pslist"; "windows.netscan"; "windows.malfind"])
    as Hready by (apply ready_empty; repeat constructor).
  assert (env_spawn E 3 ["vol.py"; "-f"; "mem.raw"; "windows.netscan"]
          = Failed FileNotFoundError) as Hfail by reflexivity.
  split; [exact Hfail |].
  apply (main_stops_at_failed_start E argv empty_world "vol.py"
           ["windows.pslist"] "windows.netscan" ["windows.malfind"] FileNotFoundError
           Hloc Hready eq_refl).
  - split; [by eexists _, _ | exact I].
  - exact Hfail.
Defined.

(** X10.  With [--plugins] given without a name, the tool located and the
    places of the directories and of the index free: [main] returns
    without running any child after the probes, opens no file but the
    index, and the index holds the header with an empty list of plugins, the
    heading of the outputs with no line under it, and the hints. *)
Theorem run_without_plugins (E : env) (argv : CommandLine) (w : world) (vol : string) :
  opt_plugins argv = Some [] ->
  outcome_of (find_vol E w) = Ok (Some vol) ->
  ready (fs w) (case_dir argv) [] ->
  let r := main E argv w in
  outcome_of r = Ok tt /\
  captured_runs (events_of r) = [] /\
  opened (events_of r) = [index_of (case_dir argv)] /\
  fs (world_of r) !! index_of (case_dir argv) =
  Some (File
    (Text.join Text.NL
       [ "# Memory Forensics Triage — " +:+ env_strftime E "%Y%m%d-%H%M%S";
         "- Image: `" +:+ opt_file argv +:+ "`";
         "- Volatility: `" +:+ vol +:+ "`";
         "- Plugins: ";
         "";
         "## Outputs" ]
     +:+ Text.NL +:+ Text.NL +:+ hints +:+ Text.NL)).
Proof.
  intros Hnone Hloc Hready r. subst r.
  assert (plugins (parse_args argv) = []) as Hplgs.
  { unfold parse_args. cbn [plugins]. by rewrite Hnone. }
  rewrite <- Hplgs in Hready.
  destruct (main_after_setup E argv w vol Hloc Hready)
    as (setup & w2 & Hsetup & _ & _ & _ & _ & ->).
  destruct (probes_of_find_vol E w) as [ans ->].
  rewrite Hplgs. cbn [for_plugins]. unfold mret, M_ret, ret.
  cbn [outcome_of world_of events_of fs].
  split; [reflexivity |]. split; [| split].
  - rewrite !captured_runs_app, captured_runs_probes, (captured_runs_setup _ _ Hsetup).
    reflexivity.
  - rewrite !opened_app, (opened_nothing _ (probe_events_open_nothing ans)).
    rewrite (opened_nothing setup); [reflexivity |].
    eapply Forall_impl; [exact Hsetup |]. apply setup_event_opens_nothing.
  - rewrite lookup_insert_eq. reflexivity.
Qed.

Lemma run_without_plugins_witness :
  let r := main (env_vol_py 0) (sample_argv_with []) empty_world in
  outcome_of r = Ok tt /\
  captured_runs (events_of r) = [] /\
  opened (events_of r) = [Pathlib.of_string "cases/CASE001/INDEX.md"] /\
  regular_files (fs (world_of r)) = [Pathlib.of_string "cases/CASE001/INDEX.md"].
Proof.
  intros r.
  destruct (run_without_plugins (env_vol_py 0) (sample_argv_with []) empty_world "vol.py"
              eq_refl eq_refl (ready_empty _ [] ltac:(constructor)))
    as (Hok & Hruns & Hopened & _).
  split; [exact Hok |]. split; [exact Hruns |]. split; [exact Hopened |].
  vm_compute. reflexivity.
Defined.

(** ** What the output files hold *)

Section LoopContent.

Variable E : env.
Variables vol img : string.
Variable out : Path.

Lemma turn_spares (plg : string) (n : nat) (t : Path) :
  t <> target_of out plg ->
  Forall (spares t)
    [EvPrint Stdout ("[*] Running " +:+ plg +:+ " → " +:+ Pathlib.to_string (target_of out plg));
     EvOpenW (target_of out plg);
     EvSpawn [vol; "-f"; img; plg] (ToFile (target_of out plg)) (ToFile (target_of out plg))
       (env_spawn E n [vol; "-f"; img; plg])].
Proof.
  intros Hne. unfold spares. repeat constructor; simpl.
  - apply not_elem_of_nil.
  - intros H. by apply list_elem_of_singleton in H.
  - unfold redirect_targets. rewrite decide_True by reflexivity.
    intros H. by apply list_elem_of_singleton in H.
Qed.

(** The events of the loop leave alone what is not an output file of a
    plugin of the list. *)
Lemma replay_loop_other (plgs : list string) (n : nat) (f : gmap Path node) (t : Path) :
  t ∉ (target_of out <$> plgs) ->
  replay (loop_events E vol img out plgs n) f !! t = f !! t.
Proof.
  revert n f. induction plgs as [|plg rest IH]; intros n f Ht; [reflexivity |].
  rewrite fmap_cons in Ht. apply not_elem_of_cons in Ht as [Hne Ht].
  cbn [loop_events]. rewrite replay_app, (IH _ _ Ht).
  apply replay_other. by apply turn_spares.
Qed.

(** When the output files are pairwise distinct, the events of the loop
    leave in the file of each plugin what the child of that plugin
    wrote. *)
Lemma replay_loop_content (plgs : list string) (n k : nat) (f : gmap Path node)
    (plg : string) (rc : Z) (output : list (stream * string)) :
  NoDup (target_of out <$> plgs) ->
  plgs !! k = Some plg ->
  env_spawn E (n + k) [vol; "-f"; img; plg] = Started rc output ->
  replay (loop_events E vol img out plgs n) f !! target_of out plg
  = Some (File (combined output)).
Proof.
  revert n k f. induction plgs as [|p rest IH]; intros n k f Hnodup Hk Hrun; [discriminate Hk |].
  rewrite fmap_cons in Hnodup. apply NoDup_cons in Hnodup as [Hnotin Hnodup].
  cbn [loop_events]. rewrite replay_app.
  destruct k as [|k].
  - injection Hk as ->. rewrite Nat.add_0_r in Hrun.
    rewrite (replay_loop_other _ _ _ _ Hnotin), Hrun.
    change (deliver (ToFile (target_of out plg)) (ToFile (target_of out plg)) output
              (<[target_of out plg := File ""]> f) !! target_of out plg
            = Some (File (combined output))).
    rewrite deliver_fresh. apply lookup_insert_eq.
  - apply (IH (S n) k); [exact Hnodup | exact Hk |]. by rewrite Nat.add_succ_r in Hrun.
Qed.

End LoopContent.

(** X11.  In a run that completes, when the output files of the entries
    are pairwise distinct, the output file of each plugin holds at the end
    exactly what the child run for that plugin wrote, standard output and
    standard error together in the order written, whatever code the child
    returned. *)
Theorem output_file_holds_child_output (E : env) (argv : CommandLine) (w : world)
    (vol : string) (k : nat) (plg : string) (rc : Z) (output : list (stream * string)) :
  outcome_of (find_vol E w) = Ok (Some vol) ->
  outcome_of (main E argv w) = Ok tt ->
  NoDup (target_of (case_dir argv) <$> plugins (parse_args argv)) ->
  plugins (parse_args argv) !! k = Some plg ->
  env_spawn E (clock (world_of (find_vol E w)) + k) [vol; "-f"; file (parse_args argv); plg]
  = Started rc output ->
  fs (world_of (main E argv w)) !! target_of (case_dir argv) plg
  = Some (File (combined output)).
Proof.
  intros Hloc Hok Hnodup Hk Hrun. rewrite sound_main.
  destruct (main_Ok_shape E argv w vol Hloc Hok) as (setup & -> & _ & _).
  rewrite !app_assoc, replay_app.
  change (<[index_of (case_dir argv) := File (index_document E (parse_args argv) vol)]>
            (replay ((events_of (find_vol E w) ++ setup)
                     ++ loop_events E vol (file (parse_args argv)) (case_dir argv)
                          (plugins (parse_args argv)) (clock (world_of (find_vol E w))))
                    (fs w))
          !! target_of (case_dir argv) plg = Some (File (combined output))).
  rewrite lookup_insert_ne; [| intros H; symmetry in H; by apply target_not_index in H].
  rewrite replay_app. by eapply replay_loop_content.
Qed.

Lemma output_file_holds_child_output_witness :
  let E := env_vol_py 1 in
  let argv := sample_argv_with ["windows.pslist"; "windows.netscan"] in
  outcome_of (main E argv empty_world) = Ok tt /\
  fs (world_of (main E argv empty_world)) !! target_of (case_dir argv) "windows.netscan"
  = Some (File "PID PPIDWARNING4 0").
Proof.
  intros E argv.
  assert (outcome_of (main E argv empty_world) = Ok tt) as Hok by (vm_compute; reflexivity).
  split; [exact Hok |].
  apply (output_file_holds_child_output E argv empty_world "vol.py" 1 "windows.netscan" 1
           [(Stdout, "PID PPID"); (Stderr, "WARNING"); (Stdout, "4 0")]);
    [reflexivity | exact Hok | | reflexivity | reflexivity].
  apply NoDup_cons. split; [| apply NoDup_singleton].
  intros H. apply list_elem_of_singleton in H. discriminate H.
Defined.

(** ** Running again on the same case directory *)

Section ReadyAgain.

Lemma replay_preserves (P : option node -> Prop) (q : Path) (evs : list event)
    (f : gmap Path node) :
  Forall (fun ev => forall g, P (g !! q) -> P (apply_event ev g !! q)) evs ->
  P (f !! q) -> P (replay evs f !! q).
Proof.
  revert f. induction evs as [|ev evs IH]; intros f Hevs Hf; [exact Hf |].
  apply Forall_cons in Hevs as [Hev Hevs].
  change (P (replay evs (apply_event ev f) !! q)). apply IH; [exact Hevs | by apply Hev].
Qed.

Lemma spares_preserves (P : option node -> Prop) (q : Path) (ev : event) :
  spares q ev -> forall g, P (g !! q) -> P (apply_event ev g !! q).
Proof. intros Hs g Hg. by rewrite (apply_event_other _ _ _ Hs). Qed.

Lemma mkdir_keeps_no_file (q p : Path) (g : gmap Path node) :
  (forall c, g !! q <> Some (File c)) ->
  forall c, apply_event (EvMkdir p) g !! q <> Some (File c).
Proof.
  intros Hg c. simpl. destruct (decide (p = q)) as [->|Hne].
  - rewrite lookup_insert_eq. discriminate.
  - rewrite lookup_insert_ne by exact Hne. apply Hg.
Qed.

Lemma append_file_keeps_no_dir (p q : Path) (data : string) (g : gmap Path node) :
  g !! q <> Some Dir -> append_file p data g !! q <> Some Dir.
Proof.
  intros Hg. unfold append_file. destruct (g !! p) as [[|old]|] eqn:Hp; try exact Hg.
  destruct (decide (p = q)) as [->|Hne].
  - rewrite lookup_insert_eq. discriminate.
  - by rewrite lookup_insert_ne.
Qed.

Lemma no_dir_event_keeps_no_dir (q : Path) (ev : event) (g : gmap Path node) :
  makes_no_dir ev -> g !! q <> Some Dir -> apply_event ev g !! q <> Some Dir.
Proof.
  destruct ev as [argv o e [x|rc output]|p|p|p data|s line]; simpl; try tauto; intros _ Hg.
  - unfold deliver. generalize (redirect_targets o e) as ps. intros ps. revert g Hg.
    induction ps as [|t ps IH]; intros g Hg; [exact Hg |].
    simpl. apply IH. by apply append_file_keeps_no_dir.
  - destruct (decide (p = q)) as [->|Hne];
      [rewrite lookup_insert_eq; discriminate | by rewrite lookup_insert_ne].
  - destruct (decide (p = q)) as [->|Hne];
      [rewrite lookup_insert_eq; discriminate | by rewrite lookup_insert_ne].
Qed.

Lemma fs_get_lookup (f : gmap Path node) (q : Path) :
  parts q <> [] -> fs_get f q = f !! q.
Proof. unfold fs_get. by destruct (parts q). Qed.

End ReadyAgain.

Lemma loop_events_spare (E : env) (vol img : string) (out : Path) (plgs : list string)
    (n : nat) (t : Path) :
  Forall (fun plg => t <> target_of out plg) plgs ->
  Forall (spares t) (loop_events E vol img out plgs n).
Proof.
  intros H. revert n. induction H as [|plg rest Hne _ IH]; intros n; [constructor |].
  cbn [loop_events]. apply Forall_app. split; [by apply turn_spares | apply IH].
Qed.

Lemma probe_events_no_dir (ans : list (string * spawn_result)) :
  Forall makes_no_dir (probe_event <$> ans).
Proof. induction ans; constructor; [exact I | assumption]. Qed.

(** X12.  A run that completes leaves the case directory ready for a next
    run: on a file system that was ready for the plugin list of the run
    and for another list, which may be the same, the file system the run
    leaves is ready for that other list. *)
Theorem ready_after_run (E : env) (argv : CommandLine) (w : world) (vol : string)
    (plgs' : list string) :
  outcome_of (find_vol E w) = Ok (Some vol) ->
  ready (fs w) (case_dir argv) (plugins (parse_args argv)) ->
  outcome_of (main E argv w) = Ok tt ->
  ready (fs w) (case_dir argv) plgs' ->
  ready (fs (world_of (main E argv w))) (case_dir argv) plgs'.
Proof.
  intros Hloc Hready Hok Hready'.
  destruct (main_Ok_shape E argv w vol Hloc Hok) as (setup & Hev & Hsetup & Hidx).
  destruct (probes_of_find_vol E w) as [ans Hans]. rewrite Hans in Hev.
  set (out := case_dir argv) in *. set (plgs := plugins (parse_args argv)) in *.
  set (n := clock (world_of (find_vol E w))) in *.
  set (doc := index_document E (parse_args argv) vol) in *.
  pose proof (ready_plain _ _ _ Hready) as Hplain.
  assert (forall q, (length (parts q) <= S (length (parts out)))%nat ->
                    Forall (fun plg => q <> target_of out plg) plgs) as Hshallow.
  { intros q Hq. eapply Forall_impl; [exact Hplain |]. intros plg Hp Heq.
    pose proof (target_length out plg Hp) as Hl. rewrite <- Heq in Hl. lia. }
  (* where a directory is needed, there is still no regular file *)
  assert (forall q, (length (parts q) <= S (length (parts out)))%nat -> q <> index_of out ->
                    (forall c, fs w !! q <> Some (File c)) ->
                    forall c, fs (world_of (main E argv w)) !! q <> Some (File c)) as Hdirs.
  { intros q Hq Hne H0. rewrite sound_main, Hev.
    apply (replay_preserves (fun o => forall c, o <> Some (File c))); [| exact H0].
    apply Forall_app. split; [| apply Forall_app; split; [| apply Forall_app; split]].
    - eapply Forall_impl; [apply (probe_events_spare q) |]. intros ev Hs. exact (spares_preserves (fun o => forall c, o <> Some (File c)) q ev Hs).
    - eapply Forall_impl; [exact Hsetup |]. intros [] Hs; try contradiction.
      intros g. apply mkdir_keeps_no_file.
    - eapply Forall_impl; [apply loop_events_spare; by apply Hshallow |].
      intros ev Hs. exact (spares_preserves (fun o => forall c, o <> Some (File c)) q ev Hs).
    - repeat constructor.
      + apply (spares_preserves (fun o => forall c, o <> Some (File c))).
        unfold spares. simpl. intros H. apply list_elem_of_singleton in H. by apply Hne.
      + apply (spares_preserves (fun o => forall c, o <> Some (File c))).
        unfold spares. simpl. apply not_elem_of_nil. }
  split.
  - intros k c. set (q := {| root := root out; parts := take k (parts out) |}).
    destruct (parts q) eqn:Hparts; [unfold fs_get; by rewrite Hparts |].
    rewrite fs_get_lookup by (by rewrite Hparts).
    apply Hdirs.
    + unfold q. cbn [parts]. rewrite length_take. lia.
    + intros H. apply (f_equal (fun p => length (parts p))) in H.
      rewrite index_length in H. unfold q in H. cbn [parts] in H. rewrite length_take in H. lia.
    + intros c'. pose proof (ready_dirs _ _ _ Hready' k c') as H.
      fold q in H. by rewrite fs_get_lookup in H by (by rewrite Hparts).
  - intros c. set (q := Pathlib.joinpath out "raw").
    assert (parts q <> []) as Hparts.
    { intros H. pose proof (raw_length out) as Hl. fold q in Hl. rewrite H in Hl. discriminate Hl. }
    rewrite fs_get_lookup by exact Hparts. apply Hdirs.
    + unfold q. rewrite raw_length. lia.
    + apply raw_not_index.
    + intros c'. pose proof (ready_raw _ _ _ Hready' c') as H.
      fold q in H. by rewrite fs_get_lookup in H by exact Hparts.
  - exact (ready_plain _ _ _ Hready').
  - pose proof (ready_plain _ _ _ Hready') as Hplain'.
    pose proof (ready_targets _ _ _ Hready') as Htargets'.
    rewrite Forall_forall in Hplain', Htargets' |- *. intros plg Hin.
    pose proof (target_length out plg (Hplain' plg Hin)) as Hl.
    assert (parts (target_of out plg) <> []) as Hparts.
    { intros H. rewrite H in Hl. discriminate Hl. }
    rewrite fs_get_lookup by exact Hparts.
    pose proof (Htargets' plg Hin) as H0. rewrite fs_get_lookup in H0 by exact Hparts.
    rewrite sound_main, Hev.
    apply (replay_preserves (fun o => o <> Some Dir)); [| exact H0].
    apply Forall_app. split; [| apply Forall_app; split; [| apply Forall_app; split]].
    + eapply Forall_impl; [apply probe_events_no_dir |].
      intros ev Hev' g. by apply no_dir_event_keeps_no_dir.
    + eapply Forall_impl; [exact Hsetup |]. intros ev Hs. apply (spares_preserves (fun o => o <> Some Dir)).
      apply (setup_event_spares (parse_args argv) (target_of out plg) ev); [| | exact Hs].
      * rewrite Hl. unfold out, case_dir. lia.
      * intros H. change (target_of out plg = Pathlib.joinpath out "raw") in H.
        rewrite H, raw_length in Hl. lia.
    + eapply Forall_impl; [apply loop_events_no_dir |].
      intros ev Hev' g. by apply no_dir_event_keeps_no_dir.
    + repeat constructor; intros g; by apply no_dir_event_keeps_no_dir.
  - assert (parts (index_of out) <> []) as Hparts.
    { intros H. pose proof (index_length out) as Hl. rewrite H in Hl. discriminate Hl. }
    rewrite fs_get_lookup by exact Hparts.
    change (fs (world_of (main E argv w)) !! index_of out = Some (File doc)) in Hidx.
    rewrite Hidx. discriminate.
Qed.

Lemma ready_after_run_witness :
  let E := env_vol_py 0 in
  let argv := sample_argv_with ["windows.pslist"; "windows.netscan"] in
  outcome_of (main E argv empty_world) = Ok tt /\
  ready (fs (world_of (main E argv empty_world))) (case_dir argv)
        ["windows.pslist"; "windows.malfind"].
Proof.
  intros E argv.
  assert (outcome_of (main E argv empty_world) = Ok tt) as Hok by (vm_compute; reflexivity).
  split; [exact Hok |].
  apply (ready_after_run E argv empty_world "vol.py" ["windows.pslist"; "windows.malfind"]);
    [reflexivity | | exact Hok |]; apply ready_empty; repeat constructor.
Defined.
